(** * vinilSulScraping: crawl frontier and product extractor

    A shallow embedding of [vinilsul_scraper.py] (the JSON variant) and of the
    pagination loop of [vinilsul_scraper_csv_sku.py] (the CSV variant).

    Python values are modelled as follows.
    - [str] is a sequence of Unicode code points: [list N].
    - [set] of [str] is [gset (list N)]; [deque] and [list] are [list].
    - [dict] keeps insertion order: an association list updated in place.
    - [Optional[T]] is [option T]; a raised exception is [Raise].
    - the network, the HTML parser and the browser are interfaces (type
      classes); the scraper's own code is written over them. *)

From Stdlib Require Import String Ascii NArith List Lia Permutation.
From stdpp Require Import base decidable option list sets gmap sorting.

Local Open Scope N_scope.
Local Open Scope list_scope.

(** ** Python strings *)

Module PyStr.

Abbreviation pystr := (list N).

(** Source literals are written in UTF-8; [py] decodes them to code points. *)
Fixpoint bytes_of (s : string) : list N :=
  match s with
  | EmptyString => []
  | String a s' => N_of_ascii a :: bytes_of s'
  end.

Fixpoint utf8_decode (bs : list N) : pystr :=
  match bs with
  | [] => []
  | b0 :: r0 =>
    if b0 <? 192 then b0 :: utf8_decode r0
    else match r0 with
    | [] => [b0]
    | b1 :: r1 =>
      if b0 <? 224 then ((b0 mod 32) * 64 + b1 mod 64) :: utf8_decode r1
      else match r1 with
      | [] => [b0; b1]
      | b2 :: r2 =>
        if b0 <? 240
        then ((b0 mod 16) * 4096 + (b1 mod 64) * 64 + b2 mod 64) :: utf8_decode r2
        else match r2 with
        | [] => [b0; b1; b2]
        | b3 :: r3 =>
          ((b0 mod 8) * 262144 + (b1 mod 64) * 4096 + (b2 mod 64) * 64 + b3 mod 64)
            :: utf8_decode r3
        end
      end
    end
  end.

Definition py (s : string) : pystr := utf8_decode (bytes_of s).

(** [str.isspace] on one code point: the characters [str.strip()] removes. *)
Definition isspace (c : N) : bool :=
  ((9 <=? c) && (c <=? 13)) || ((28 <=? c) && (c <=? 32))
  || (c =? 133) || (c =? 160) || (c =? 5760)
  || ((8192 <=? c) && (c <=? 8202))
  || (c =? 8232) || (c =? 8233) || (c =? 8239) || (c =? 8287) || (c =? 12288).

Fixpoint str_lstrip (s : pystr) : pystr :=
  match s with
  | [] => []
  | c :: s' => if isspace c then str_lstrip s' else s
  end.

Definition str_rstrip (s : pystr) : pystr := rev (str_lstrip (rev s)).

(** [s.strip()] *)
Definition str_strip (s : pystr) : pystr := str_lstrip (str_rstrip s).

(** [s.startswith(p)] *)
Fixpoint str_startswith (s p : pystr) : bool :=
  match p, s with
  | [], _ => true
  | _ :: _, [] => false
  | a :: p', c :: s' => (a =? c) && str_startswith s' p'
  end.

(** [sub in s] *)
Fixpoint str_contains (sub s : pystr) : bool :=
  str_startswith s sub ||
  match s with
  | [] => false
  | _ :: s' => str_contains sub s'
  end.

(** [s.split(sep)] for a non-empty [sep]: [skip] counts the code points of a
    separator that is being consumed, [cur] is the piece read so far (reversed). *)
Fixpoint str_split_aux (sep : pystr) (skip : nat) (cur : pystr) (s : pystr) : list pystr :=
  match s with
  | [] => [rev cur]
  | c :: s' =>
    match skip with
    | S k => str_split_aux sep k cur s'
    | O =>
      if str_startswith s sep
      then rev cur :: str_split_aux sep (length sep - 1) [] s'
      else str_split_aux sep O (c :: cur) s'
    end
  end.

Definition str_split (sep s : pystr) : list pystr := str_split_aux sep O [] s.

(** [s.split(sep, 1)]: at most one cut, at the first occurrence of [sep]. *)
Fixpoint str_split1_aux (sep : pystr) (cur : pystr) (s : pystr) : list pystr :=
  match s with
  | [] => [rev cur]
  | c :: s' =>
    if str_startswith s sep
    then [rev cur; skipn (length sep) s]
    else str_split1_aux sep (c :: cur) s'
  end.

Definition str_split1 (sep s : pystr) : list pystr := str_split1_aux sep [] s.

(** [sep.join(parts)] *)
Fixpoint str_join (sep : pystr) (parts : list pystr) : pystr :=
  match parts with
  | [] => []
  | [p] => p
  | p :: ps => p ++ sep ++ str_join sep ps
  end.

(** [s.replace(old, new)] for a non-empty [old]. *)
Definition str_replace (old new s : pystr) : pystr := str_join new (str_split old s).

(** [a < b] on [str]: lexicographic on code points. *)
Fixpoint str_ltb (a b : pystr) : bool :=
  match a, b with
  | _, [] => false
  | [], _ :: _ => true
  | x :: a', y :: b' => (x <? y) || ((x =? y) && str_ltb a' b')
  end.

(** The order [sorted] uses: [a] goes before [b] unless [b < a]. *)
Definition str_le (a b : pystr) : Prop := str_ltb b a = false.

#[global] Instance str_le_dec (a b : pystr) : Decision (str_le a b).
Proof. unfold str_le. apply _. Defined.

(** [sorted(xs)] on strings: a stable merge sort with [<]. *)
Definition sorted (l : list pystr) : list pystr := merge_sort str_le l.

(** [bool(s)]: a string is falsy exactly when it is empty. *)
Definition truthy (s : pystr) : bool :=
  match s with [] => false | _ :: _ => true end.

End PyStr.

Import PyStr.

(** ** Exceptions *)

(** The outcome of a call that may raise: [Raise] stands for any [Exception]. *)
Inductive result (A : Type) : Type :=
  | Ok (a : A)
  | Raise.
Arguments Ok {A} a.
Arguments Raise {A}.

#[global] Instance result_ret : MRet result := fun A a => Ok a.
#[global] Instance result_bind : MBind result :=
  fun A B f m => match m with Ok a => f a | Raise => Raise end.

(** [try: body / except Exception: handler] *)
Definition try_except {A} (body handler : result A) : result A :=
  match body with
  | Ok a => Ok a
  | Raise => handler
  end.

(** ** The outside world of the JSON variant *)

(** What [session.get] gives back: a response with its status (2xx or not)
    and body, or a raised [requests.RequestException]. *)
Inductive response : Type :=
  | Response (status_ok : bool) (text : pystr).

(** [requests], [urllib.parse.urljoin], and the anchors of a parsed listing
    page.
    - [session_get u] is [session.get(u, timeout=...)]; [Raise] is a
      [requests.RequestException]. A call that raises an exception of
      another class is not a value of this type: such runs are modelled in
      [Unguarded] below.
    - [select_hrefs html sel] is [a.get("href")] for every element [a] of
      [BeautifulSoup(html, "lxml").select(sel)], in document order ([None]
      when the attribute is missing); [select_one] is the first element of
      [select]. The discovery loop calls the parser outside any [try], so
      these calls are taken not to raise. *)
Class Web : Type := {
  session_get : pystr -> result response;
  urljoin : pystr -> pystr -> pystr;
  select_hrefs : pystr -> string -> list (option pystr);
}.

(** The part of the [bs4] tag API the extractor calls. Every call the
    extractor guards with [except Exception] may raise. The constructor
    [BeautifulSoup(markup, "lxml")] is total here: on a fragment of the
    technical-information paragraph it is followed at once by [get_text]
    inside the same [try], whose [Raise] stands for either call raising;
    on the fetched page it is called outside the [try] blocks, and the
    runs in which it raises there are modelled in [Unguarded] below.
    [get_text t sep] is [t.get_text(sep, strip=True)]. *)
Class Bs4 (Tag : Type) : Type := {
  BeautifulSoup : pystr -> Tag;
  select_one : Tag -> string -> result (option Tag);
  select : Tag -> string -> result (list Tag);
  get_text : Tag -> pystr -> result pystr;
  find : Tag -> string -> result (option Tag);
  find_next : Tag -> string -> result (option Tag);
  decode_contents : Tag -> result pystr;
}.

(** [str.lower] on the Basic Latin and Latin-1 Supplement blocks. *)
Definition lower_latin1 (c : N) : N :=
  if ((65 <=? c) && (c <=? 90)) || ((192 <=? c) && (c <=? 222) && negb (c =? 215))
  then c + 32 else c.

(** [str.lower]: the Unicode case mapping, known here only by what it does on
    strings of code points below 256. *)
Class Unicode : Type := {
  str_lower : pystr -> pystr;
  str_lower_latin1 s :
    Forall (fun c => c < 256) s -> str_lower s = map lower_latin1 s;
}.

(** ** Module 1: discovery of product links with pagination *)

Section Discovery.
Context `{Web}.

(** [fetch_html]: the body on success, [None] on any [RequestException]
    (raised by [session.get] or by [raise_for_status] on a non-2xx status).
    The delay after the request is not modelled. An exception of another
    class is not caught by [fetch_html]; see [Unguarded.fetch_html]. *)
Definition fetch_html (url : pystr) : option pystr :=
  match session_get url with
  | Ok (Response true text) => Some text
  | Ok (Response false _) => None
  | Raise => None
  end.

Definition absolute_url (base_url maybe_relative_url : pystr) : pystr :=
  urljoin base_url maybe_relative_url.

(** Ghost record of the calls the traversal makes, oldest first. *)
Inductive event : Type :=
  | EvFetch (url : pystr)
  | EvAppend (url : pystr).

#[global] Instance event_eq_dec : EqDecision event.
Proof. solve_decision. Defined.

(** The three locals of [discover_product_urls], and the ghost [trace]. *)
Record CrawlState : Type := {
  product_urls : gset pystr;
  visited_listing_pages : gset pystr;
  queue : list pystr;
  trace : list event;
}.

(** [for a in soup.select("a.button.product_type_simple"): ...] *)
Definition add_product_links (listing_url : pystr) (hrefs : list (option pystr))
    (acc : gset pystr) : gset pystr :=
  fold_left (fun acc a =>
    match a with
    | Some href =>
      if truthy href then {[ absolute_url listing_url href ]} ∪ acc else acc
    | None => acc
    end) hrefs acc.

(** The next listing page: [soup.select_one("a.next.page-numbers")], its
    [href] when present and non-empty, made absolute. *)
Definition next_page (listing_url html : pystr) : option pystr :=
  match select_hrefs html "a.next.page-numbers" with
  | Some next_href :: _ =>
    if truthy next_href then Some (absolute_url listing_url next_href) else None
  | _ => None
  end.

(** One turn of [while queue:], after [listing_url = queue.popleft()]. *)
Definition loop_body (listing_url : pystr) (s : CrawlState) : CrawlState :=
  if decide (listing_url ∈ visited_listing_pages s) then s
  else
    let visited := {[ listing_url ]} ∪ visited_listing_pages s in
    let tr := trace s ++ [EvFetch listing_url] in
    match fetch_html listing_url with
    | None =>
      {| product_urls := product_urls s; visited_listing_pages := visited;
         queue := queue s; trace := tr |}
    | Some html =>
      let products :=
        add_product_links listing_url
          (select_hrefs html "a.button.product_type_simple") (product_urls s) in
      match next_page listing_url html with
      | Some next_url =>
        if decide (next_url ∈ visited)
        then {| product_urls := products; visited_listing_pages := visited;
                queue := queue s; trace := tr |}
        else {| product_urls := products; visited_listing_pages := visited;
                queue := queue s ++ [next_url]; trace := tr ++ [EvAppend next_url] |}
      | None =>
        {| product_urls := products; visited_listing_pages := visited;
           queue := queue s; trace := tr |}
      end
    end.

(** [queue.popleft()] followed by the loop body. *)
Definition step (s : CrawlState) : CrawlState :=
  match queue s with
  | [] => s
  | listing_url :: rest =>
    loop_body listing_url
      {| product_urls := product_urls s;
         visited_listing_pages := visited_listing_pages s;
         queue := rest; trace := trace s |}
  end.

(** [while queue: ...]: [None] when [fuel] turns do not empty the queue. *)
Fixpoint while_queue (fuel : nat) (s : CrawlState) : option CrawlState :=
  match queue s with
  | [] => Some s
  | _ :: _ =>
    match fuel with
    | O => None
    | S fuel' => while_queue fuel' (step s)
    end
  end.

Definition initial (start_urls : list pystr) : CrawlState :=
  {| product_urls := ∅; visited_listing_pages := ∅;
     queue := start_urls; trace := [] |}.

(** [sorted(product_urls)]: a set is iterated in some order, then sorted. *)
Definition discover_product_urls (fuel : nat) (start_urls : list pystr)
    : option (list pystr) :=
  match while_queue fuel (initial start_urls) with
  | Some s => Some (sorted (elements (product_urls s)))
  | None => None
  end.

(** The listing pages [fetch_html] was called on, and the URLs passed to
    [queue.append], oldest first. *)
Definition fetched (tr : list event) : list pystr :=
  omap (fun e => match e with EvFetch u => Some u | EvAppend _ => None end) tr.

Definition appended (tr : list event) : list pystr :=
  omap (fun e => match e with EvAppend u => Some u | EvFetch _ => None end) tr.

(** Everything ever put into the frontier: the start URLs the deque is built
    from, then each [queue.append]. *)
Definition enqueued (start_urls : list pystr) (s : CrawlState) : list pystr :=
  start_urls ++ appended (trace s).

End Discovery.

(** ** Module 2: detailed extraction of one product *)

(** A Python [dict] with [str] keys: insertion-ordered, and assigning to a key
    that is present keeps its position. *)
Abbreviation pydict := (list (pystr * pystr)).

(** [d[key] = value] *)
Fixpoint dict_set (key value : pystr) (d : pydict) : pydict :=
  match d with
  | [] => [(key, value)]
  | (k, v) :: d' =>
    if decide (k = key) then (k, value) :: d' else (k, v) :: dict_set key value d'
  end.

(** [d.get(key)] *)
Fixpoint dict_get (key : pystr) (d : pydict) : option pystr :=
  match d with
  | [] => None
  | (k, v) :: d' => if decide (k = key) then Some v else dict_get key d'
  end.

Record ProductRecord : Type := {
  url : pystr;
  title : option pystr;
  short_description : option pystr;
  categories : list pystr;
  tags : list pystr;
  advantages : list pystr;
  technical_info : pydict;
}.

(** The record returned when the page could not be fetched, and the one
    [main] substitutes when extraction raises. *)
Definition empty_record (product_url : pystr) : ProductRecord :=
  {| url := product_url; title := None; short_description := None;
     categories := []; tags := []; advantages := []; technical_info := [] |}.

Section Extraction.
Context `{Web} `{Bs4 Tag} `{Unicode}.

(** [el.get_text(sep, strip=True) if el else None] for [el = soup.select_one(sel)] *)
Definition text_of_first (soup : Tag) (sel : string) (sep : pystr)
    : result (option pystr) :=
  el ← select_one soup sel;
  match el with
  | Some el => t ← get_text el sep; Ok (Some t)
  | None => Ok None
  end.

(** [for a in span.select("a"): text = (a.get_text(strip=True) or "").strip();
    if text: out.append(text)] *)
Fixpoint anchor_texts (anchors : list Tag) : result (list pystr) :=
  match anchors with
  | [] => Ok []
  | a :: rest =>
    t ← get_text a (py "");
    let text := str_strip t in
    out ← anchor_texts rest;
    Ok (if truthy text then text :: out else out)
  end.

(** The body of the [categories] and of the [tags] block. *)
Definition span_anchor_texts (soup : Tag) (sel : string) : result (list pystr) :=
  span ← select_one soup sel;
  match span with
  | Some span => anchors ← select span "a"; anchor_texts anchors
  | None => Ok []
  end.

(** [for h2 in h2_list: if "vantagens" in h2.get_text(" ", strip=True).lower():
    target_h2 = h2; break] *)
Fixpoint find_target_h2 (h2_list : list Tag) : result (option Tag) :=
  match h2_list with
  | [] => Ok None
  | h2 :: rest =>
    t ← get_text h2 (py " ");
    if str_contains (py "vantagens") (str_lower t) then Ok (Some h2)
    else find_target_h2 rest
  end.

(** [for li in ul.select("li"): txt = li.get_text(" ", strip=True);
    if txt: advantages.append(txt)] *)
Fixpoint li_texts (lis : list Tag) : result (list pystr) :=
  match lis with
  | [] => Ok []
  | li :: rest =>
    txt ← get_text li (py " ");
    out ← li_texts rest;
    Ok (if truthy txt then txt :: out else out)
  end.

(** The [advantages] block after [desc_tab] has been assigned. *)
Definition advantages_of (desc_tab : option Tag) : result (list pystr) :=
  match desc_tab with
  | None => Ok []
  | Some desc_tab =>
    h2_list ← select desc_tab "h2";
    target_h2 ← find_target_h2 h2_list;
    match target_h2 with
    | None => Ok []
    | Some target_h2 =>
      ul ← find_next target_h2 "ul";
      match ul with
      | None => Ok []
      | Some ul => lis ← select ul "li"; li_texts lis
      end
    end
  end.

(** The whole [advantages] try block. It also binds the local [desc_tab],
    which the next block reads: the first component is [None] when the
    assignment did not complete (the name is unbound), [Some d] when
    [desc_tab] holds [d]. An exception after the assignment leaves it bound. *)
Definition advantages_block (soup : Tag) : option (option Tag) * list pystr :=
  match select_one soup "div#tab-description" with
  | Raise => (None, [])
  | Ok desc_tab =>
    (Some desc_tab,
     match advantages_of desc_tab with Ok adv => adv | Raise => [] end)
  end.

(** [for p in p_list: strong = p.find("strong"); if strong is not None and
    "informações técnicas" in strong.get_text(" ", strip=True).lower():
    target_p = p; break] *)
Fixpoint find_target_p (p_list : list Tag) : result (option Tag) :=
  match p_list with
  | [] => Ok None
  | p :: rest =>
    strong ← find p "strong";
    match strong with
    | None => find_target_p rest
    | Some strong =>
      t ← get_text strong (py " ");
      if str_contains (py "informações técnicas") (str_lower t) then Ok (Some p)
      else find_target_p rest
    end
  end.

(** [for part in parts: ...]: the key: value lines of the paragraph. *)
Fixpoint parse_parts (parts : list pystr) (technical_info : pydict)
    : result pydict :=
  match parts with
  | [] => Ok technical_info
  | part :: rest =>
    if negb (truthy part) then parse_parts rest technical_info
    else
      part_text ← get_text (BeautifulSoup part) (py " ");
      if negb (truthy part_text) then parse_parts rest technical_info
      else if str_startswith (str_lower part_text) (py "informações técnicas")
      then parse_parts rest technical_info
      else if str_contains (py ":") part_text
      then
        match str_split1 (py ":") part_text with
        | [key; value] =>
          let key := str_strip key in
          let value := str_strip value in
          if truthy key then parse_parts rest (dict_set key value technical_info)
          else parse_parts rest technical_info
        | _ => Raise
        end
      else parse_parts rest technical_info
  end.

(** The [technical_info] block from the paragraph list on. *)
Definition technical_info_of (desc_tab : option Tag) : result pydict :=
  match desc_tab with
  | None => Ok []
  | Some desc_tab =>
    p_list ← select desc_tab "p";
    target_p ← find_target_p p_list;
    match target_p with
    | None => Ok []
    | Some target_p =>
      raw_html ← decode_contents target_p;
      let normalized :=
        str_replace (py "<br />") (py "<br>")
          (str_replace (py "<br/>") (py "<br>") raw_html) in
      let parts := map str_strip (str_split (py "<br>") normalized) in
      parse_parts parts []
    end
  end.

(** The body of the [technical_info] try block.
    [desc_tab = desc_tab or soup.select_one("div#tab-description")]: reading an
    unbound [desc_tab] raises; a tag is truthy, so the page is queried again
    only when [desc_tab] is [None]. *)
Definition technical_info_body (soup : Tag) (binding : option (option Tag))
    : result pydict :=
  match binding with
  | None => Raise
  | Some desc_tab =>
    desc_tab ← match desc_tab with
               | Some t => Ok (Some t)
               | None => select_one soup "div#tab-description"
               end;
    technical_info_of desc_tab
  end.

(** [scrape_product_details] from [soup] on: the six guarded blocks and
    the record they fill. *)
Definition extract_fields (product_url : pystr) (soup : Tag) : result ProductRecord :=
  title ← try_except
    (text_of_first soup "h2.product_title.entry-title" (py "")) (Ok None);
  short_description ← try_except
    (text_of_first soup "div.woocommerce-product-details__short-description"
       (py " ")) (Ok None);
  categories ← try_except (span_anchor_texts soup "span.posted_in") (Ok []);
  tags ← try_except (span_anchor_texts soup "span.tagged_as") (Ok []);
  let '(binding, advantages) := advantages_block soup in
  technical_info ← try_except (technical_info_body soup binding) (Ok []);
  Ok {| url := product_url; title := title;
        short_description := short_description; categories := categories;
        tags := tags; advantages := advantages;
        technical_info := technical_info |}.

(** [scrape_product_details] when [session.get] raises nothing but a
    [requests.RequestException] and the parser accepts the page; the
    exceptions that pass the two calls made outside the [try] blocks are
    added in [Unguarded]. *)
Definition scrape_product_details (product_url : pystr) : result ProductRecord :=
  match fetch_html product_url with
  | None => Ok (empty_record product_url)
  | Some html => extract_fields product_url (BeautifulSoup html)
  end.

(** ** Module 3: orchestration *)

(** The [for idx, url in enumerate(product_urls, start=1)] loop of [main]:
    one [results.append] per URL, in either branch of the [try]. *)
Definition main_loop (product_urls : list pystr) : list ProductRecord :=
  fold_left (fun results url =>
    results ++ [match scrape_product_details url with
                | Ok details => details
                | Raise => empty_record url
                end]) product_urls [].

Definition start_urls : list pystr :=
  [py "https://www.vinilsul.com.br/categoria-produto/suprimentos/"].

(** [main] up to the list handed to [json.dump]. *)
Definition main (fuel : nat) : option (list ProductRecord) :=
  match discover_product_urls fuel start_urls with
  | Some product_urls => Some (main_loop product_urls)
  | None => None
  end.

End Extraction.

(** ** The CSV variant: [VinilSulScraper.run] *)

Module CsvSku.

Record Produto : Type := {
  nome : pystr;
  sku : pystr;
  categoria : pystr;
  marca : pystr;
  descricao : pystr;
  imagens : pystr;
  url : pystr;
}.

(** The browser page and the [html.parser] tree.
    - [page_content u] is [page.goto(u)] followed by [page.content()]; [None]
      when [goto] raises [PlaywrightTimeoutError].
    - [parser_hrefs html sel] is [a.get("href")] for every element of
      [BeautifulSoup(html, "html.parser").select(sel)], in document order.
    - [extract_product link] is the guarded body of the product loop (load the
      product page, [_extract_product_details], [_download_images]); [Raise]
      when any of it raises. *)
Class Browser : Type := {
  page_content : pystr -> option pystr;
  parser_hrefs : pystr -> string -> list (option pystr);
  extract_product : pystr -> result Produto;
}.

(** [list(dict.fromkeys(links))]: drop repeats, keep the first occurrence. *)
Definition fromkeys (links : list pystr) : list pystr :=
  fold_left (fun acc x => if decide (x ∈ acc) then acc else acc ++ [x]) links [].

(** The [href]s of a selection that are present and non-empty. *)
Definition truthy_hrefs (hrefs : list (option pystr)) : list pystr :=
  omap (fun h => match h with
                 | Some href => if truthy href then Some href else None
                 | None => None
                 end) hrefs.

Section Run.
Context `{Browser}.

Definition _parse_product_links (html : pystr) : list pystr :=
  let links :=
    truthy_hrefs (parser_hrefs html
      "li.product a.woocommerce-LoopProduct-link, li.product a.woocommerce-loop-product__link") in
  let links :=
    match links with
    | [] =>
      filter (fun href => str_contains (py "/produto/") href = true)
        (truthy_hrefs (parser_hrefs html "li.product a"))
    | _ :: _ => links
    end in
  fromkeys links.

Definition _get_next_page (html : pystr) : option pystr :=
  match parser_hrefs html "a.next, li.next a, a.page-numbers.next" with
  | Some href :: _ => if truthy href then Some href else None
  | _ => None
  end.

(** [loaded] is a ghost record of the listing pages [page.goto] was called
    on, oldest first. *)
Record RunState : Type := {
  produtos : list Produto;
  seen_links : gset pystr;
  loaded : list pystr;
}.

(** [page.goto(current_url)] is about to be called. *)
Definition load (current_url : pystr) (st : RunState) : RunState :=
  {| produtos := produtos st; seen_links := seen_links st;
     loaded := loaded st ++ [current_url] |}.

(** [for link in product_links: ...] *)
Definition process_links (product_links : list pystr) (st : RunState) : RunState :=
  fold_left (fun st link =>
    if decide (link ∈ seen_links st) then st
    else
      let seen := {[ link ]} ∪ seen_links st in
      match extract_product link with
      | Ok produto =>
        {| produtos := produtos st ++ [produto]; seen_links := seen;
           loaded := loaded st |}
      | Raise =>
        {| produtos := produtos st; seen_links := seen; loaded := loaded st |}
      end) product_links st.

(** [while current_url: ...]: [None] when [fuel] turns do not leave the loop. *)
Fixpoint run_loop (fuel : nat) (current_url : pystr) (st : RunState)
    : option RunState :=
  if negb (truthy current_url) then Some st
  else
    match fuel with
    | O => None
    | S fuel' =>
      let st := load current_url st in
      match page_content current_url with
      | None => Some st
      | Some html =>
        match _parse_product_links html with
        | [] => Some st
        | product_links =>
          let st := process_links product_links st in
          match _get_next_page html with
          | None => Some st
          | Some next_url =>
            if negb (truthy next_url) || bool_decide (next_url = current_url)
            then Some st
            else run_loop fuel' next_url st
          end
        end
      end
    end.

(** [run] up to the list handed to [_write_csv]. *)
Definition run (fuel : nat) (base_url : pystr) : option RunState :=
  run_loop fuel base_url {| produtos := []; seen_links := ∅; loaded := [] |}.

End Run.

End CsvSku.

(** ** What the traversal is expected to compute *)

Section DiscoverySpec.
Context `{Web}.

(** The product links of a listing page, made absolute, in document order. *)
Definition product_links (listing_url html : pystr) : list pystr :=
  omap (fun a =>
    match a with
    | Some href =>
      if truthy href then Some (absolute_url listing_url href) else None
    | None => None
    end) (select_hrefs html "a.button.product_type_simple").

(** The product links found at [listing_url]; none when the fetch fails. *)
Definition page_products (listing_url : pystr) : list pystr :=
  match fetch_html listing_url with
  | Some html => product_links listing_url html
  | None => []
  end.

(** The next-page link of [listing_url], when the page can be fetched and
    has one. *)
Definition page_next (listing_url : pystr) : option pystr :=
  match fetch_html listing_url with
  | Some html => next_page listing_url html
  | None => None
  end.

(** The URLs a turn on [u] appends: the next page unless it is visited. *)
Definition next_appends (u : pystr) (visited : gset pystr) : list pystr :=
  match page_next u with
  | Some v => if decide (v ∈ visited) then [] else [v]
  | None => []
  end.

(** The listing pages reachable from the start URLs along next-page links. *)
Inductive reachable (start_urls : list pystr) : pystr -> Prop :=
  | reach_start u : u ∈ start_urls -> reachable start_urls u
  | reach_next u v :
      reachable start_urls u -> page_next u = Some v -> reachable start_urls v.

(** The state after [n] turns of the loop. *)
Definition after (n : nat) (start_urls : list pystr) : CrawlState :=
  Nat.iter n step (initial start_urls).

(** What holds of the state at every turn of the loop. *)
Record crawl_inv (start_urls : list pystr) (s : CrawlState) : Prop := {
  inv_nodup : NoDup (fetched (trace s));
  inv_fetched u : u ∈ fetched (trace s) <-> u ∈ visited_listing_pages s;
  inv_products x :
    x ∈ product_urls s <->
    exists u, u ∈ visited_listing_pages s /\ x ∈ page_products u;
  inv_next u v :
    u ∈ visited_listing_pages s -> page_next u = Some v ->
    v ∈ visited_listing_pages s \/ v ∈ queue s;
  inv_start u :
    u ∈ start_urls -> u ∈ visited_listing_pages s \/ u ∈ queue s;
  inv_reach u :
    u ∈ visited_listing_pages s \/ u ∈ queue s -> reachable start_urls u;
  inv_order i j u :
    trace s !! i = Some (EvFetch u) -> trace s !! j = Some (EvAppend u) ->
    (j < i)%nat;
  inv_appends : (length (appended (trace s)) <= length (fetched (trace s)))%nat;
}.

(** The pages still to visit plus the queue length: it drops at every turn. *)
Definition measure (pages : gset pystr) (s : CrawlState) : nat :=
  size (pages ∖ visited_listing_pages s) + length (queue s).

End DiscoverySpec.

(** ** What the extractor is expected to compute *)

Section ExtractionSpec.
Context `{Web} `{Bs4 Tag} `{Unicode}.

(** The value a guarded block leaves in its variable. *)
Definition guarded {A} (body : result A) (default : A) : A :=
  match body with
  | Ok a => a
  | Raise => default
  end.

(** Each field as a function of the page alone, with no other field run
    before it. *)
Definition title_alone (soup : Tag) : option pystr :=
  guarded (text_of_first soup "h2.product_title.entry-title" (py "")) None.

Definition short_description_alone (soup : Tag) : option pystr :=
  guarded (text_of_first soup
             "div.woocommerce-product-details__short-description" (py " ")) None.

Definition categories_alone (soup : Tag) : list pystr :=
  guarded (span_anchor_texts soup "span.posted_in") [].

Definition tags_alone (soup : Tag) : list pystr :=
  guarded (span_anchor_texts soup "span.tagged_as") [].

Definition advantages_alone (soup : Tag) : list pystr :=
  guarded (desc_tab ← select_one soup "div#tab-description";
           advantages_of desc_tab) [].

Definition technical_info_alone (soup : Tag) : pydict :=
  guarded (desc_tab ← select_one soup "div#tab-description";
           technical_info_of desc_tab) [].

(** The selectors the extractor looks up on the page itself. *)
Definition target_selectors : list string :=
  [ "h2.product_title.entry-title";
    "div.woocommerce-product-details__short-description";
    "span.posted_in"; "span.tagged_as"; "div#tab-description" ]%string.

(** A heading that is not the advantages heading. *)
Definition other_heading (h2 : Tag) : Prop :=
  exists t, get_text h2 (py " ") = Ok t /\
            str_contains (py "vantagens") (str_lower t) = false.


(** The record [main] appends for one URL. *)
Definition record_for (product_url : pystr) : ProductRecord :=
  match scrape_product_details product_url with
  | Ok details => details
  | Raise => empty_record product_url
  end.

(** An entry of [technical_info] whose key is trimmed and not empty. *)
Definition key_ok (entry : pystr * pystr) : Prop :=
  truthy (str_strip entry.1) = true /\ str_strip entry.1 = entry.1.

End ExtractionSpec.


(** ** The calls [scrape_product_details] makes outside its [try] blocks *)

Module Unguarded.

(** What [session.get(url, timeout=...)] comes to, with every exception it
    can raise: [fetch_html] catches a [requests.RequestException] and lets
    an exception of any other class pass (urllib3's [LocationParseError]
    for a host label of more than 63 characters is one). *)
Inductive get_result : Type :=
  | Got (r : response)
  | RequestException
  | OtherException.

(** [get url] is [session.get(url, timeout=timeout)]; [make_soup html] is
    [BeautifulSoup(html, "lxml")] on the fetched page, [Raise] when the
    constructor raises. [create_session], the third call outside the [try]
    blocks, only builds a session object and sets its headers. *)
Class Calls (Tag : Type) : Type := {
  get : pystr -> get_result;
  make_soup : pystr -> result Tag;
}.

Section Scrape.
Context `{Bs4 Tag} `{Unicode} `{Calls Tag}.

(** [fetch_html]: [raise_for_status] turns a status that is not 2xx into
    an [HTTPError], which is a [RequestException]. *)
Definition fetch_html (url : pystr) : result (option pystr) :=
  match get url with
  | Got (Response true text) => Ok (Some text)
  | Got (Response false _) => Ok None
  | RequestException => Ok None
  | OtherException => Raise
  end.

Definition scrape_product_details (product_url : pystr) : result ProductRecord :=
  html ← fetch_html product_url;
  match html with
  | None => Ok (empty_record product_url)
  | Some html =>
    soup ← make_soup html;
    extract_fields product_url soup
  end.

End Scrape.

End Unguarded.

(** No leading white space. *)
Definition no_lead (s : pystr) : Prop :=
  match s with
  | [] => True
  | c :: _ => isspace c = false
  end.

(** ** Further definitions for the crawl frontier *)

Section FrontierSpec.
Context `{Web}.

(** What holds at every turn when there is at most one start URL: the
    frontier never holds two URLs, and nothing is enqueued twice. *)
Record single_inv (start_urls : list pystr) (s : CrawlState) : Prop := {
  single_queue : (length (queue s) <= 1)%nat;
  single_nodup : NoDup (enqueued start_urls s);
  single_seen u :
    u ∈ enqueued start_urls s ->
    u ∈ visited_listing_pages s \/ u ∈ queue s;
  single_fresh u : u ∈ queue s -> u ∉ visited_listing_pages s;
}.

End FrontierSpec.

(** ** Further definitions for the extractor *)

Section TechnicalInfoSpec.
Context `{Unicode}.

(** What one line of the technical-information paragraph contributes,
    given its text: the body of the [for part in parts] loop after the
    parser call. *)
Definition line_entry (part_text : pystr) : option (pystr * pystr) :=
  if negb (truthy part_text) then None
  else if str_startswith (str_lower part_text) (py "informações técnicas") then None
  else if str_contains (py ":") part_text
  then
    match str_split1 (py ":") part_text with
    | [key; value] =>
      if truthy (str_strip key) then Some (str_strip key, str_strip value) else None
    | _ => None
    end
  else None.

End TechnicalInfoSpec.

(** [for key, value in entries: d[key] = value] *)
Definition set_entries (entries : list (pystr * pystr)) (d : pydict) : pydict :=
  fold_left (fun d e => dict_set e.1 e.2 d) entries d.

(** The value of the last entry for [key], if there is one. *)
Fixpoint last_value (key : pystr) (entries : list (pystr * pystr)) : option pystr :=
  match entries with
  | [] => None
  | (k, v) :: rest =>
    match last_value key rest with
    | Some w => Some w
    | None => if decide (k = key) then Some v else None
    end
  end.

(** A text that is not empty and has nothing left to trim. *)
Definition clean_text (t : pystr) : Prop := t <> [] /\ str_strip t = t.

(** ** The CSV variant: names, files and product details *)

Module CsvDetails.

Import CsvSku.

(** What the variant takes from [urllib], [pathlib], [re] and [requests].
    - [url_path u] is [urlparse(u).path]; [path_name p] is [Path(p).name].
    - [unicode_alnum c] tells whether the regular expression class [\w]
      holds a code point outside ASCII.
    - [image_get u] is what a download of [u] comes to. *)
Inductive download : Type :=
  | GetFails      (* [requests.get] or [raise_for_status] raises *)
  | StreamFails   (* the file is opened, then [iter_content] raises *)
  | Downloaded.

Class Libs : Type := {
  url_path : pystr -> pystr;
  path_name : pystr -> pystr;
  unicode_alnum : N -> bool;
  image_get : pystr -> download;
}.

(** The class [[a-z0-9]] of [_slugify]'s pattern. *)
Definition is_slug_char (c : N) : bool :=
  ((97 <=? c) && (c <=? 122)) || ((48 <=? c) && (c <=? 57)).

(** [re.sub(r"[^a-z0-9]+", "-", value)]: every maximal run of other
    characters becomes one hyphen; [in_run] tells that the run's hyphen has
    been written. *)
Fixpoint sub_non_slug (in_run : bool) (value : pystr) : pystr :=
  match value with
  | [] => []
  | c :: rest =>
    if is_slug_char c then c :: sub_non_slug false rest
    else if in_run then sub_non_slug true rest
    else 45 :: sub_non_slug true rest
  end.

(** [s.lstrip(ch)], [s.rstrip(ch)] and [s.strip(ch)] for one character. *)
Fixpoint lstrip_char (ch : N) (s : pystr) : pystr :=
  match s with
  | [] => []
  | c :: rest => if c =? ch then lstrip_char ch rest else s
  end.

Fixpoint rstrip_char (ch : N) (s : pystr) : pystr :=
  match s with
  | [] => []
  | c :: rest =>
    match rstrip_char ch rest with
    | [] => if c =? ch then [] else [c]
    | r => c :: r
    end
  end.

Definition strip_char (ch : N) (s : pystr) : pystr :=
  lstrip_char ch (rstrip_char ch s).

(** The file system, as far as the downloads use it: a path can be tested
    for existence, a directory made with its parents, a file opened for
    writing. Nothing here removes a path: what exists keeps existing, and a
    file that was opened exists. *)
Class FileSystem (Disk : Type) : Type := {
  fs_exists : Disk -> pystr -> bool;
  fs_mkdir : Disk -> pystr -> Disk;
  fs_open : Disk -> pystr -> Disk;
  fs_open_exists d path : fs_exists (fs_open d path) path = true;
  fs_open_keeps d path q :
    fs_exists d q = true -> fs_exists (fs_open d path) q = true;
  fs_mkdir_keeps d path q :
    fs_exists d q = true -> fs_exists (fs_mkdir d path) q = true;
}.

(** The shape of a directory name made by [_slugify]: lower-case letters,
    digits and single hyphens, with no hyphen at either end. *)
Definition slug_char (c : N) : Prop := is_slug_char c = true \/ c = 45.

Fixpoint no_double_hyphen (s : pystr) : Prop :=
  match s with
  | [] => True
  | c :: rest => (c = 45 -> head rest <> Some 45) /\ no_double_hyphen rest
  end.

Definition is_slug (s : pystr) : Prop :=
  Forall slug_char s /\ no_double_hyphen s /\
  head s <> Some 45 /\ last s <> Some 45.

Section Names.
Context `{Unicode} `{Libs} `{FileSystem Disk}.

Definition _slugify (value : pystr) : pystr :=
  let value := str_lower (str_strip value) in
  let value := sub_non_slug false value in
  strip_char 45 value.

(** The class [\w]: letters, digits and the underscore. *)
Definition is_word (c : N) : bool :=
  if c <? 128
  then ((48 <=? c) && (c <=? 57)) || ((65 <=? c) && (c <=? 90))
       || ((97 <=? c) && (c <=? 122)) || (c =? 95)
  else unicode_alnum c.

(** [re.sub(r"[^\w.\-]", "_", name)] *)
Definition sub_unsafe (name : pystr) : pystr :=
  map (fun c => if is_word c || (c =? 46) || (c =? 45) then c else 95) name.

(** [str(index)] for a non-negative integer. *)
Fixpoint digits (d : Decimal.uint) : pystr :=
  match d with
  | Decimal.Nil => []
  | Decimal.D0 d => 48 :: digits d
  | Decimal.D1 d => 49 :: digits d
  | Decimal.D2 d => 50 :: digits d
  | Decimal.D3 d => 51 :: digits d
  | Decimal.D4 d => 52 :: digits d
  | Decimal.D5 d => 53 :: digits d
  | Decimal.D6 d => 54 :: digits d
  | Decimal.D7 d => 55 :: digits d
  | Decimal.D8 d => 56 :: digits d
  | Decimal.D9 d => 57 :: digits d
  end.

Definition str_of_nat (n : nat) : pystr := digits (Nat.to_uint n).

Definition _filename_from_url (url : pystr) (index : nat) : pystr :=
  let name := path_name (url_path url) in
  if negb (truthy name) then py "imagem_" ++ str_of_nat index ++ py ".jpg"
  else
    let name := if negb (str_contains (py ".") name) then name ++ py ".jpg" else name in
    sub_unsafe name.

(** [a / b] for a relative component [b]. *)
Definition path_join (a b : pystr) : pystr := a ++ py "/" ++ b.

(** [slug_source = product_name or Path(urlparse(product_url).path).name;
    folder_name = self._slugify(slug_source) or "produto"] *)
Definition folder_name (product_name product_url : pystr) : pystr :=
  let slug_source :=
    if truthy product_name then product_name else path_name (url_path product_url) in
  let slug := _slugify slug_source in
  if truthy slug then slug else py "produto".

(** Where the image at [img_url], the [idx]-th of its product, is stored,
    and the path reported for it. *)
Definition image_file (images_dir folder : pystr) (idx : nat) (img_url : pystr) : pystr :=
  path_join (path_join images_dir folder) (_filename_from_url img_url idx).

Definition image_relative (images_dir folder : pystr) (idx : nat) (img_url : pystr)
    : pystr :=
  path_join (path_join (path_name images_dir) folder) (_filename_from_url img_url idx).

(** A character [_filename_from_url] lets through. *)
Definition safe_char (c : N) : Prop := is_word c = true \/ c = 46 \/ c = 45.

(** The state of the download loop: the disk, the ghost list of the image
    URLs requested (oldest first), and [relative_paths]. *)
Record Downloads : Type := {
  disk : Disk;
  requested : list pystr;
  relative_paths : list pystr;
}.

(** Every path reported so far is the relative form of a path that exists
    on the disk. *)
Definition reported_exist (images_dir folder : pystr) (st : Downloads) : Prop :=
  Forall (fun r => exists idx u,
            r = image_relative images_dir folder idx u /\
            fs_exists (disk st) (image_file images_dir folder idx u) = true)
    (relative_paths st).

(** One turn of [for idx, img_url in enumerate(image_urls, start=1)]. *)
Definition download_one (images_dir folder : pystr) (idx : nat) (img_url : pystr)
    (st : Downloads) : Downloads :=
  let filename := _filename_from_url img_url idx in
  let file_path := path_join (path_join images_dir folder) filename in
  let relative :=
    path_join (path_join (path_name images_dir) folder) filename in
  if fs_exists (disk st) file_path
  then {| disk := disk st; requested := requested st;
          relative_paths := relative_paths st ++ [relative] |}
  else
    match image_get img_url with
    | GetFails =>
      {| disk := disk st; requested := requested st ++ [img_url];
         relative_paths := relative_paths st |}
    | StreamFails =>
      {| disk := fs_open (disk st) file_path;
         requested := requested st ++ [img_url];
         relative_paths := relative_paths st |}
    | Downloaded =>
      {| disk := fs_open (disk st) file_path;
         requested := requested st ++ [img_url];
         relative_paths := relative_paths st ++ [relative] |}
    end.

Fixpoint download_loop (images_dir folder : pystr) (idx : nat)
    (image_urls : list pystr) (st : Downloads) : Downloads :=
  match image_urls with
  | [] => st
  | img_url :: rest =>
    download_loop images_dir folder (S idx) rest
      (download_one images_dir folder idx img_url st)
  end.

(** [_download_images], from a disk [d] and nothing requested yet. *)
Definition _download_images (images_dir : pystr) (image_urls : list pystr)
    (product_name product_url : pystr) (d : Disk) : Downloads :=
  match image_urls with
  | [] => {| disk := d; requested := []; relative_paths := [] |}
  | _ :: _ =>
    let folder := folder_name product_name product_url in
    let product_dir := path_join images_dir folder in
    download_loop images_dir folder 1 image_urls
      {| disk := fs_mkdir d product_dir; requested := []; relative_paths := [] |}
  end.

End Names.

(** The part of the [html.parser] tree that [_extract_product_details]
    reads. [node_text n sep] is [n.get_text(sep, strip=True)];
    [select_one] is the first element of [css_select]. *)
Class HtmlParser (Node : Type) : Type := {
  parse : pystr -> Node;
  css_select : Node -> string -> list Node;
  node_text : Node -> pystr -> pystr;
  node_attr : Node -> string -> option pystr;
}.

Section Details.
Context `{HtmlParser Node}.

Definition css_select_one (n : Node) (sel : string) : option Node :=
  head (css_select n sel).

(** [a or b] on [Optional] elements: a tag is truthy. *)
Definition or_else {A} (a b : option A) : option A :=
  match a with
  | Some _ => a
  | None => b
  end.

(** [[a.get_text(strip=True) for a in nodes if a.get_text(strip=True)]] *)
Definition nonempty_texts (nodes : list Node) : list pystr :=
  filter (fun t => truthy t = true) (map (fun a => node_text a (py "")) nodes).

(** [for span in meta.select("span"): ... break]: the brands of the first
    span whose text contains "Marca". *)
Fixpoint find_marca (spans : list Node) : pystr :=
  match spans with
  | [] => []
  | span :: rest =>
    if str_contains (py "Marca") (node_text span (py " "))
    then
      match nonempty_texts (css_select span "a") with
      | [] => []
      | marcas => str_join (py ", ") (fromkeys marcas)
      end
    else find_marca rest
  end.

(** [src = img.get("data-src") or img.get("src")] *)
Definition image_src (img : Node) : option pystr :=
  match node_attr img "data-src" with
  | Some src => if truthy src then Some src else node_attr img "src"
  | None => node_attr img "src"
  end.

Definition _extract_product_details (html url : pystr) : Produto * list pystr :=
  let soup := parse html in
  let title_el :=
    or_else (css_select_one soup "h2.product_title.entry-title")
      (or_else (css_select_one soup "h1.product_title")
         (css_select_one soup "h1")) in
  let name :=
    match title_el with
    | Some el => node_text el (py "")
    | None => []
    end in
  let sku :=
    match css_select_one soup ".sku" with
    | Some el => node_text el (py "")
    | None => []
    end in
  let '(categoria, marca) :=
    match css_select_one soup "div.product_meta" with
    | Some meta =>
      (match nonempty_texts (css_select meta "span.posted_in a") with
       | [] => []
       | categorias => str_join (py " > ") categorias
       end,
       find_marca (css_select meta "span"))
    | None => ([], [])
    end in
  let categoria :=
    if negb (truthy categoria)
    then str_join (py " > ")
           (nonempty_texts (css_select soup "nav.woocommerce-breadcrumb a"))
    else categoria in
  let short_part :=
    match css_select_one soup "div.woocommerce-product-details__short-description" with
    | Some el => [node_text el (py " ")]
    | None => []
    end in
  let long_part :=
    match or_else (css_select_one soup "#tab-description")
            (css_select_one soup "div.woocommerce-Tabs-panel--description") with
    | Some el => [node_text el (py " ")]
    | None => []
    end in
  let descricao :=
    str_join (py " | ")
      (filter (fun p => truthy p = true) (short_part ++ long_part)) in
  let images :=
    omap (fun img =>
            match image_src img with
            | Some src => if truthy src then Some src else None
            | None => None
            end)
      (css_select soup
         "figure.woocommerce-product-gallery img, div.woocommerce-product-gallery img") in
  ({| nome := name; sku := sku; categoria := categoria; marca := marca;
      descricao := descricao; imagens := []; url := url |},
   fromkeys images).

End Details.

(** The pagination of [run], page by page. *)
Section Chain.
Context `{Browser}.

(** The loop ends at [u]: the page times out, lists no product, has no
    next-page link, or links to itself. *)
Definition stops (u : pystr) : Prop :=
  page_content u = None \/
  exists html, page_content u = Some html /\
    (_parse_product_links html = [] \/ _get_next_page html = None \/
     _get_next_page html = Some u).

(** The loop moves on from [u] to [v]. *)
Definition continues (u v : pystr) : Prop :=
  exists html, page_content u = Some html /\
    _parse_product_links html <> [] /\ _get_next_page html = Some v /\ v <> u.

(** The listing pages from [u] up to the page the loop ends at. *)
Inductive chain : pystr -> list pystr -> Prop :=
  | chain_stop u : truthy u = true -> stops u -> chain u [u]
  | chain_next u v l :
      truthy u = true -> continues u v -> chain v l -> chain u (u :: l).

(** What the product loop adds for one link. *)
Definition ok_product (link : pystr) : option Produto :=
  match extract_product link with
  | Ok produto => Some produto
  | Raise => None
  end.

(** What holds of the rows collected so far. *)
Definition rows_ok (st : RunState) : Prop :=
  (length (produtos st) <= size (seen_links st))%nat /\
  ((forall link p, extract_product link = Ok p -> url p = link) ->
   NoDup (map url (produtos st)) /\
   forall p, p ∈ produtos st -> url p ∈ seen_links st).

End Chain.

End CsvDetails.

(** ** Small concrete sites *)

(** A site given by a table: for each listing URL its product links and its
    next-page link. The body served for a URL is the URL itself; links are
    absolute already, so joining returns them unchanged; a URL that is not in
    the table fails to load. *)
Fixpoint table_lookup (table : list (pystr * (list pystr * option pystr)))
    (u : pystr) : option (list pystr * option pystr) :=
  match table with
  | [] => None
  | (k, row) :: table' => if decide (k = u) then Some row else table_lookup table' u
  end.

Definition table_web (table : list (pystr * (list pystr * option pystr))) : Web :=
  {| session_get u :=
       match table_lookup table u with
       | Some _ => Ok (Response true u)
       | None => Raise
       end;
     urljoin _ rel := rel;
     select_hrefs html sel :=
       match table_lookup table html with
       | Some (products, next) =>
         if String.eqb sel "a.button.product_type_simple" then map Some products
         else if String.eqb sel "a.next.page-numbers"
         then match next with Some n => [Some n] | None => [] end
         else []
       | None => []
       end |}.

(** Two listing pages whose next-page links form a cycle; one product is
    listed on both. *)
Definition cycle_site : Web :=
  table_web [ (py "/p1", ([py "/b"; py "/a"], Some (py "/p2")));
              (py "/p2", ([py "/b"; py "/c"], Some (py "/p1"))) ].

(** Two start pages that both point to the same third page. *)
Definition fan_in_site : Web :=
  table_web [ (py "/x", ([py "/a"], Some (py "/z")));
              (py "/y", ([py "/b"], Some (py "/z")));
              (py "/z", ([py "/c"], None)) ].

(** An index page without product links whose next-page link leads to a
    page with one; the second page fails to load in [broken_site]. *)
Definition landing_site : Web :=
  table_web [ (py "/index", ([], Some (py "/p1")));
              (py "/p1", ([py "/a"], None)) ].

(** The same kind of table for the browser of the CSV variant; a product
    page always loads, and its record carries the link as name and URL. *)
Definition table_browser (table : list (pystr * (list pystr * option pystr)))
    : CsvSku.Browser :=
  {| CsvSku.page_content u :=
       match table_lookup table u with
       | Some _ => Some u
       | None => None
       end;
     CsvSku.parser_hrefs html sel :=
       match table_lookup table html with
       | Some (products, next) =>
         if String.eqb sel
              "li.product a.woocommerce-LoopProduct-link, li.product a.woocommerce-loop-product__link"
         then map Some products
         else if String.eqb sel "a.next, li.next a, a.page-numbers.next"
         then match next with Some n => [Some n] | None => [] end
         else []
       | None => []
       end;
     CsvSku.extract_product link :=
       Ok {| CsvSku.nome := link; CsvSku.sku := []; CsvSku.categoria := [];
             CsvSku.marca := []; CsvSku.descricao := []; CsvSku.imagens := [];
             CsvSku.url := link |} |}.

(** Two catalog pages, each with one product, whose next-page links point
    at each other. *)
Definition cycle_browser : CsvSku.Browser :=
  table_browser [ (py "/p1", ([py "/a"], Some (py "/p2")));
                  (py "/p2", ([py "/b"], Some (py "/p1"))) ].

(** A landing page without products whose next-page link leads to a page
    with one. *)
Definition landing_browser : CsvSku.Browser :=
  table_browser [ (py "/index", ([], Some (py "/p1")));
                  (py "/p1", ([py "/a"], None)) ].

(** A small shop: the start page lists two products; the first product page
    loads, the second answers with an error status. *)
Definition shop_web : Web :=
  {| session_get u :=
       if decide (u = py "https://www.vinilsul.com.br/categoria-produto/suprimentos/")
       then Ok (Response true (py "LISTING"))
       else if decide (u = py "/produto/lona") then Ok (Response true (py "LONA"))
       else if decide (u = py "/produto/fita") then Ok (Response false (py ""))
       else Raise;
     urljoin _ rel := rel;
     select_hrefs html sel :=
       if decide (html = py "LISTING")
       then if String.eqb sel "a.button.product_type_simple"
            then [Some (py "/produto/lona"); Some (py "/produto/fita")]
            else []
       else [] |}.

(** The text of a fragment made of text and simple tags: everything between
    [<] and [>] is dropped. *)
Fixpoint drop_tags (in_tag : bool) (markup : pystr) : pystr :=
  match markup with
  | [] => []
  | c :: rest =>
    if c =? 60 then drop_tags true rest
    else if c =? 62 then drop_tags false rest
    else if in_tag then drop_tags true rest
    else c :: drop_tags false rest
  end.

(** The elements of the product page "LONA", by name. A parsed text fragment
    is [Doc]; its text is the fragment without its tags, trimmed. *)
Inductive toy_tag : Type :=
  | Doc (markup : pystr)
  | El (name : string).

Definition toy_children (parent sel : string) : list toy_tag :=
  if String.eqb parent "tab" && String.eqb sel "h2" then [El "h2-intro"; El "h2-adv"]
  else if String.eqb parent "tab" && String.eqb sel "p" then [El "p-intro"; El "p-tech"]
  else if String.eqb parent "ul" && String.eqb sel "li" then [El "li-a"; El "li-b"]
  else if String.eqb parent "cats" && String.eqb sel "a" then [El "cat-1"]
  else [].

Definition toy_text (name : string) : pystr :=
  if String.eqb name "title" then py "Lona Front"
  else if String.eqb name "h2-intro" then py "Sobre o produto"
  else if String.eqb name "h2-adv" then py "Principais VANTAGENS"
  else if String.eqb name "li-a" then py "A"
  else if String.eqb name "li-b" then py "B"
  else if String.eqb name "strong" then py "Informações Técnicas:"
  else if String.eqb name "cat-1" then py " Lonas "
  else py "".

(** The page has a title, a category span, no short description, a tag span
    whose lookup raises, and a description tab with an advantages list and
    a technical-information paragraph. *)
Definition toy_bs4 : Bs4 toy_tag :=
  {| BeautifulSoup markup := Doc markup;
     select_one t sel :=
       match t with
       | Doc markup =>
         if decide (markup = py "LONA")
         then if String.eqb sel "h2.product_title.entry-title" then Ok (Some (El "title"))
              else if String.eqb sel "span.posted_in" then Ok (Some (El "cats"))
              else if String.eqb sel "span.tagged_as" then Raise
              else if String.eqb sel "div#tab-description" then Ok (Some (El "tab"))
              else Ok None
         else Ok None
       | El _ => Ok None
       end;
     select t sel :=
       match t with
       | Doc _ => Ok []
       | El name => Ok (toy_children name sel)
       end;
     get_text t sep :=
       match t with
       | Doc markup => Ok (str_strip (drop_tags false markup))
       | El name => Ok (toy_text name)
       end;
     find t name :=
       match t with
       | El "p-tech" => if String.eqb name "strong" then Ok (Some (El "strong")) else Ok None
       | _ => Ok None
       end;
     find_next t name :=
       match t with
       | El "h2-adv" => if String.eqb name "ul" then Ok (Some (El "ul")) else Ok None
       | _ => Ok None
       end;
     decode_contents t :=
       match t with
       | El "p-tech" =>
         Ok (py "<strong>Informações Técnicas:</strong> <br/>Cor: Azul<br/>Tamanho: M<br/>Cor: Vermelho")
       | _ => Raise
       end |}.

(** The same page with another description tab: a heading [Desvantagens]
    with a one-item list stands before the heading [Vantagens] and its
    list of [A] and [B]. *)
Definition rival_children (parent sel : string) : list toy_tag :=
  if String.eqb parent "tab" && String.eqb sel "h2" then [El "h2-dis"; El "h2-adv"]
  else if String.eqb parent "ul-dis" && String.eqb sel "li" then [El "li-x"]
  else if String.eqb parent "ul-adv" && String.eqb sel "li" then [El "li-a"; El "li-b"]
  else [].

Definition rival_text (name : string) : pystr :=
  if String.eqb name "h2-dis" then py "Desvantagens"
  else if String.eqb name "h2-adv" then py "Vantagens"
  else if String.eqb name "li-x" then py "X"
  else if String.eqb name "li-a" then py "A"
  else if String.eqb name "li-b" then py "B"
  else py "".

Definition rival_bs4 : Bs4 toy_tag :=
  {| BeautifulSoup markup := Doc markup;
     select_one t sel :=
       match t with
       | Doc markup =>
         if decide (markup = py "LONA")
         then if String.eqb sel "div#tab-description" then Ok (Some (El "tab"))
              else Ok None
         else Ok None
       | El _ => Ok None
       end;
     select t sel :=
       match t with
       | Doc _ => Ok []
       | El name => Ok (rival_children name sel)
       end;
     get_text t sep :=
       match t with
       | Doc markup => Ok (str_strip (drop_tags false markup))
       | El name => Ok (rival_text name)
       end;
     find _ _ := Ok None;
     find_next t name :=
       match t with
       | El "h2-dis" => if String.eqb name "ul" then Ok (Some (El "ul-dis")) else Ok None
       | El "h2-adv" => if String.eqb name "ul" then Ok (Some (El "ul-adv")) else Ok None
       | _ => Ok None
       end;
     decode_contents _ := Raise |}.

(** A page on which no target selector matches anything. *)
Definition bare_bs4 : Bs4 toy_tag :=
  {| BeautifulSoup markup := Doc markup;
     select_one _ _ := Ok None;
     select _ _ := Ok [];
     get_text _ _ := Ok [];
     find _ _ := Ok None;
     find_next _ _ := Ok None;
     decode_contents _ := Ok [] |}.

(** Lower-casing limited to the Latin-1 range. *)
Definition latin1_unicode : Unicode :=
  {| str_lower := map lower_latin1;
     str_lower_latin1 := fun s _ => eq_refl |}.

(** The sample page read by a parser that fails on the fragment
    [Tamanho: M]. *)
Definition fragile_bs4 : Bs4 toy_tag :=
  {| BeautifulSoup := @BeautifulSoup _ toy_bs4;
     select_one := @select_one _ toy_bs4;
     select := @select _ toy_bs4;
     get_text t sep :=
       match t with
       | Doc markup =>
         if decide (markup = py "Tamanho: M") then Raise
         else @get_text _ toy_bs4 t sep
       | El _ => @get_text _ toy_bs4 t sep
       end;
     find := @find _ toy_bs4;
     find_next := @find_next _ toy_bs4;
     decode_contents := @decode_contents _ toy_bs4 |}.

(** The text before the first character that [stop] holds of. *)
Fixpoint str_until (stop : N -> bool) (s : pystr) : pystr :=
  match s with
  | [] => []
  | c :: rest => if stop c then [] else c :: str_until stop rest
  end.

(** The text from the first slash on. *)
Fixpoint from_slash (s : pystr) : pystr :=
  match s with
  | [] => []
  | c :: rest => if c =? 47 then s else from_slash rest
  end.

(** [urlparse(u).path] on a URL [http://host/path;params?query#fragment]
    (or [https]) and on a path that starts with a slash: fragment, query,
    scheme and host are cut off, and so are the parameters of the last
    segment. *)
Definition toy_url_path (u : pystr) : pystr :=
  let u := str_until (fun c => c =? 35) u in
  let u := str_until (fun c => c =? 63) u in
  let u :=
    if str_startswith u (py "http://") then from_slash (drop 7 u)
    else if str_startswith u (py "https://") then from_slash (drop 8 u)
    else u in
  match reverse (str_split (py "/") u) with
  | [] => u
  | last :: before =>
    str_join (py "/") (reverse (str_until (fun c => c =? 59) last :: before))
  end.

(** [PurePosixPath(p).name]: the last component of the path; empty
    components and [.] do not count, [..] does. *)
Definition toy_path_name (p : pystr) : pystr :=
  List.last
    (filter (fun c => c <> [] /\ c <> py ".") (str_split (py "/") p)) [].

(** A small [urllib] and [pathlib]; image URLs with "broken" in them fail
    before the file is opened, those with "partial" break off after it. *)
Definition toy_libs : CsvDetails.Libs :=
  {| CsvDetails.url_path := toy_url_path;
     CsvDetails.path_name := toy_path_name;
     CsvDetails.unicode_alnum _ := false;
     CsvDetails.image_get u :=
       if str_contains (py "broken") u then CsvDetails.GetFails
       else if str_contains (py "partial") u then CsvDetails.StreamFails
       else CsvDetails.Downloaded |}.

(** A disk as the set of the paths that exist. *)
#[refine] Definition set_disk : CsvDetails.FileSystem (gset pystr) :=
  {| CsvDetails.fs_exists d path := bool_decide (path ∈ d);
     CsvDetails.fs_mkdir d path := {[ path ]} ∪ d;
     CsvDetails.fs_open d path := {[ path ]} ∪ d |}.
Proof.
  - intros d path. apply bool_decide_eq_true. set_solver.
  - intros d path q Hq. apply bool_decide_eq_true.
    apply bool_decide_eq_true in Hq. set_solver.
  - intros d path q Hq. apply bool_decide_eq_true.
    apply bool_decide_eq_true in Hq. set_solver.
Defined.

(** Two catalog pages that share a product; the second page has no
    next-page link, and the product page [/b] fails to load. *)
Definition shop_browser : CsvSku.Browser :=
  let catalog :=
    table_browser [ (py "/p1", ([py "/a"; py "/b"], Some (py "/p2")));
                    (py "/p2", ([py "/b"; py "/c"], None)) ] in
  {| CsvSku.page_content := @CsvSku.page_content catalog;
     CsvSku.parser_hrefs := @CsvSku.parser_hrefs catalog;
     CsvSku.extract_product link :=
       if decide (link = py "/b") then Raise
       else @CsvSku.extract_product catalog link |}.

(** The directories a path goes through, the path itself last. *)
Fixpoint ancestors (above : pystr) (components : list pystr) : list pystr :=
  match components with
  | [] => []
  | c :: rest =>
    let here := match above with [] => c | _ => above ++ py "/" ++ c end in
    here :: ancestors here rest
  end.

(** A path [dir/name/..] names [dir]. *)
Definition resolve (path : pystr) : pystr :=
  match reverse (str_split (py "/") path) with
  | last :: _ :: above =>
    if decide (last = py "..") then str_join (py "/") (reverse above) else path
  | _ => path
  end.

(** A disk of relative paths on which a directory is made with its
    parents, and [..] is followed. *)
#[refine] Definition tree_disk : CsvDetails.FileSystem (gset pystr) :=
  {| CsvDetails.fs_exists d path := bool_decide (resolve path ∈ d);
     CsvDetails.fs_mkdir d path :=
       list_to_set (ancestors [] (str_split (py "/") path)) ∪ d;
     CsvDetails.fs_open d path := {[ resolve path ]} ∪ d |}.
Proof.
  - intros d path. apply bool_decide_eq_true. set_solver.
  - intros d path q Hq. apply bool_decide_eq_true.
    apply bool_decide_eq_true in Hq. set_solver.
  - intros d path q Hq. apply bool_decide_eq_true.
    apply bool_decide_eq_true in Hq. set_solver.
Defined.

(** A session whose [get] fails on a host label of 64 characters with an
    exception that is no [RequestException], and answers every other URL
    with the page [LONA]; the parser accepts every page. *)
Definition long_label_url : pystr :=
  py "http://aaaaaaaaaaaaaaaaaaaaaaaaaaaaaaaaaaaaaaaaaaaaaaaaaaaaaaaaaaaaaaaa.example/produto/lona".

Definition long_label_calls : Unguarded.Calls toy_tag :=
  {| Unguarded.get u :=
       if decide (u = long_label_url) then Unguarded.OtherException
       else Unguarded.Got (Response true (py "LONA"));
     Unguarded.make_soup html := Ok (Doc html) |}.

(** A parser that rejects every page. *)
Definition rejecting_calls : Unguarded.Calls toy_tag :=
  {| Unguarded.get u := Unguarded.Got (Response true (py "LONA"));
     Unguarded.make_soup html := Raise |}.

(** * Checks on concrete inputs *)

Example py_ascii : py "Cor" = [67; 111; 114].
Proof. reflexivity. Qed.

Example py_latin1 : py "ções" = [231; 245; 101; 115].
Proof. reflexivity. Qed.

Example split_br :
  str_split (py "<br>") (py "a<br>b<br><br>c") = [py "a"; py "b"; py ""; py "c"].
Proof. reflexivity. Qed.

Example replace_br :
  str_replace (py "<br />") (py "<br>")
    (str_replace (py "<br/>") (py "<br>") (py "x<br/>y<br />z<br>"))
  = py "x<br>y<br>z<br>".
Proof. reflexivity. Qed.

Example split1_colon :
  str_split1 (py ":") (py "a: b: c") = [py "a"; py " b: c"].
Proof. reflexivity. Qed.

Example strip_nbsp : str_strip ([160; 32] ++ py "Cor " ++ [9; 10]) = py "Cor".
Proof. reflexivity. Qed.

Example sorted_urls :
  sorted [py "b"; py "ab"; py "a"; py "B"] = [py "B"; py "a"; py "ab"; py "b"].
Proof. reflexivity. Qed.

Example dict_set_keeps_position :
  dict_set (py "Cor") (py "Vermelho") [(py "Cor", py "Azul"); (py "Tamanho", py "M")]
  = [(py "Cor", py "Vermelho"); (py "Tamanho", py "M")].
Proof. reflexivity. Qed.

Example fromkeys_first_occurrence :
  CsvSku.fromkeys [py "/b"; py "/a"; py "/b"; py "/c"; py "/a"]
  = [py "/b"; py "/a"; py "/c"].
Proof. vm_compute. reflexivity. Qed.

(** Two listing pages in a cycle: two fetches, three distinct products. *)
Example discover_cycle_site :
  @discover_product_urls cycle_site 3 [py "/p1"]
  = Some [py "/a"; py "/b"; py "/c"] /\
  (trace <$> @while_queue cycle_site 3 (initial [py "/p1"]))
  = Some [EvFetch (py "/p1"); EvAppend (py "/p2"); EvFetch (py "/p2")].
Proof. split; vm_compute; reflexivity. Qed.

(** Two start pages pointing at one page: it is appended twice, fetched once. *)
Example discover_fan_in_site :
  (trace <$> @while_queue fan_in_site 5 (initial [py "/x"; py "/y"]))
  = Some [EvFetch (py "/x"); EvAppend (py "/z"); EvFetch (py "/y");
          EvAppend (py "/z"); EvFetch (py "/z")].
Proof. vm_compute. reflexivity. Qed.

(** A landing page without products: the JSON variant goes on to the next
    page, the CSV variant stops. *)
Example discover_landing_site :
  @discover_product_urls landing_site 3 [py "/index"] = Some [py "/a"].
Proof. vm_compute. reflexivity. Qed.

Example run_landing_browser :
  (CsvSku.loaded <$> @CsvSku.run landing_browser 3 (py "/index"))
  = Some [py "/index"].
Proof. vm_compute. reflexivity. Qed.

(** The loop of the CSV variant is still going round the two-page cycle
    after any number of turns tried. *)
Example run_cycle_browser_50 : @CsvSku.run cycle_browser 50 (py "/p1") = None.
Proof. vm_compute. reflexivity. Qed.

Example slugify_name :
  @CsvDetails._slugify latin1_unicode (py "  Lona Front-Light 440g (Brilho)! ")
  = py "lona-front-light-440g-brilho".
Proof. vm_compute. reflexivity. Qed.

Example slugify_symbols_only :
  @CsvDetails._slugify latin1_unicode (py " ### ") = py "" /\
  @CsvDetails.folder_name latin1_unicode toy_libs (py " ### ") (py "/produto/x")
  = py "produto".
Proof. split; vm_compute; reflexivity. Qed.

Example url_path_examples :
  toy_url_path (py "https://cdn/img/a.png?v=2#x") = py "/img/a.png" /\
  toy_url_path (py "https://cdn/img/foto;v=1") = py "/img/foto" /\
  toy_url_path (py "https://cdn/") = py "/" /\
  toy_url_path (py "https://cdn") = py "" /\
  toy_url_path (py "/produto/lona/") = py "/produto/lona/".
Proof. repeat split; vm_compute; reflexivity. Qed.

Example path_name_examples :
  toy_path_name (py "/img/lona 1.png") = py "lona 1.png" /\
  toy_path_name (py "/img/") = py "img" /\
  toy_path_name (py "/media/./capa.webp/") = py "capa.webp" /\
  toy_path_name (py "/img/..") = py ".." /\
  toy_path_name (py "/") = py "" /\
  toy_path_name (py "") = py "".
Proof. repeat split; vm_compute; reflexivity. Qed.

Example filename_examples :
  @CsvDetails._filename_from_url toy_libs (py "https://cdn/img/lona 1.png") 1
  = py "lona_1.png" /\
  @CsvDetails._filename_from_url toy_libs (py "https://cdn/img/lona") 2
  = py "lona.jpg" /\
  @CsvDetails._filename_from_url toy_libs (py "https://cdn/img/") 12
  = py "img.jpg" /\
  @CsvDetails._filename_from_url toy_libs (py "https://cdn/") 12
  = py "imagem_12.jpg" /\
  @CsvDetails._filename_from_url toy_libs (py "https://cdn/img/a.png?v=2#x") 3
  = py "a.png" /\
  @CsvDetails._filename_from_url toy_libs (py "https://cdn/img/..") 4
  = py "..".
Proof. repeat split; vm_compute; reflexivity. Qed.

(** Three images: one downloads, one breaks off after the file is opened,
    one fails before. A second run asks only for the last one again. *)
Example download_twice :
  let urls := [py "http://cdn/a.jpg"; py "http://cdn/partial.jpg";
               py "http://cdn/broken.jpg"] in
  let first := @CsvDetails._download_images latin1_unicode toy_libs _ set_disk
                 (py "imagens") urls (py "Lona") (py "/produto/lona") ∅ in
  let second := @CsvDetails._download_images latin1_unicode toy_libs _ set_disk
                  (py "imagens") urls (py "Lona") (py "/produto/lona")
                  (CsvDetails.disk first) in
  CsvDetails.relative_paths first = [py "imagens/lona/a.jpg"] /\
  CsvDetails.requested first = urls /\
  CsvDetails.relative_paths second
  = [py "imagens/lona/a.jpg"; py "imagens/lona/partial.jpg"] /\
  CsvDetails.requested second = [py "http://cdn/broken.jpg"].
Proof. repeat split; vm_compute; reflexivity. Qed.

(** An image URL whose path ends in [/..]: the file name is [..], the path
    [imagens/lona/..] is the directory [imagens], which exists once the
    product's folder is made; nothing is requested and the path is
    reported. *)
Example download_parent_directory :
  let run := @CsvDetails._download_images latin1_unicode toy_libs _ tree_disk
               (py "imagens") [py "https://cdn/img/.."] (py "Lona")
               (py "/produto/lona") ∅ in
  CsvDetails.relative_paths run = [py "imagens/lona/.."] /\
  CsvDetails.requested run = [].
Proof. split; vm_compute; reflexivity. Qed.

(** * Properties *)

(** ** The string order *)

Lemma str_ltb_irrefl (a : pystr) : str_ltb a a = false.
Proof.
  induction a as [|x a IH]; simpl; [reflexivity|].
  rewrite N.ltb_irrefl, N.eqb_refl, IH. reflexivity.
Qed.

Lemma str_ltb_asym (a b : pystr) : str_ltb a b = true -> str_ltb b a = false.
Proof.
  revert b. induction a as [|x a IH]; intros [|y b]; simpl; try easy.
  intros Hab.
  destruct (N.ltb_spec x y) as [Hxy|Hxy]; simpl in Hab.
  - destruct (N.ltb_spec y x); [lia|]. simpl.
    destruct (N.eqb_spec y x); [lia|]. reflexivity.
  - destruct (N.eqb_spec x y) as [->|Hne]; simpl in Hab; [|discriminate].
    rewrite N.ltb_irrefl, N.eqb_refl. simpl. auto.
Qed.

Lemma str_ltb_trichotomy (a b : pystr) :
  str_ltb a b = false -> str_ltb b a = false -> a = b.
Proof.
  revert b. induction a as [|x a IH]; intros [|y b]; simpl; try easy.
  intros Hab Hba.
  destruct (N.ltb_spec x y); simpl in Hab; [discriminate|].
  destruct (N.ltb_spec y x); simpl in Hba; [discriminate|].
  assert (x = y) as -> by lia.
  rewrite N.eqb_refl in Hab, Hba. simpl in Hab, Hba.
  f_equal. auto.
Qed.

Lemma str_ltb_trans (a b c : pystr) :
  str_ltb a b = true -> str_ltb b c = true -> str_ltb a c = true.
Proof.
  revert b c. induction a as [|x a IH]; intros [|y b] [|z c]; simpl; try easy.
  intros Hab Hbc.
  destruct (N.ltb_spec x y) as [Hxy|Hxy]; simpl in Hab.
  - destruct (N.ltb_spec y z) as [Hyz|Hyz]; simpl in Hbc.
    + destruct (N.ltb_spec x z); [reflexivity|lia].
    + destruct (N.eqb_spec y z) as [->|]; [|discriminate].
      destruct (N.ltb_spec x z); [reflexivity|lia].
  - destruct (N.eqb_spec x y) as [->|]; [|discriminate]. simpl in Hab.
    destruct (N.ltb_spec y z) as [Hyz|Hyz]; simpl in Hbc; [reflexivity|].
    destruct (N.eqb_spec y z) as [->|]; [|discriminate]. simpl in *.
    eauto.
Qed.

#[global] Instance str_le_total : Total str_le.
Proof.
  intros a b. unfold str_le.
  destruct (str_ltb b a) eqn:E; [right|left; reflexivity].
  apply str_ltb_asym, E.
Qed.

#[global] Instance str_le_trans : Transitive str_le.
Proof.
  intros a b c Hab Hbc. unfold str_le in *.
  destruct (str_ltb c a) eqn:Hca; [|reflexivity].
  destruct (str_ltb c b) eqn:Hcb; [discriminate|].
  destruct (str_ltb b c) eqn:Hbc'.
  - rewrite (str_ltb_trans b c a Hbc' Hca) in Hab. discriminate.
  - apply str_ltb_trichotomy in Hbc'; [|exact Hcb]. subst c.
    rewrite Hca in Hab. discriminate.
Qed.

#[global] Instance str_le_antisym : AntiSymm (=) str_le.
Proof. intros a b Hab Hba. apply str_ltb_trichotomy; assumption. Qed.

(** [sorted] returns a permutation of its argument, in non-decreasing order. *)
Lemma sorted_perm (l : list pystr) : sorted l ≡ₚ l.
Proof. apply merge_sort_Permutation. Qed.

Lemma sorted_sorted (l : list pystr) : StronglySorted str_le (sorted l).
Proof. apply StronglySorted_merge_sort; apply _. Qed.

(** The sorted list does not depend on the order the elements come in. *)
Lemma sorted_order_irrelevant (l1 l2 : list pystr) :
  l1 ≡ₚ l2 -> sorted l1 = sorted l2.
Proof.
  intros Hp. apply (StronglySorted_unique str_le); try apply sorted_sorted.
  rewrite !sorted_perm. exact Hp.
Qed.

(** Without repeats, non-decreasing order is strictly increasing order. *)
Lemma sorted_strict (l : list pystr) :
  NoDup l -> StronglySorted (fun a b => str_ltb a b = true) (sorted l).
Proof.
  intros Hnd.
  assert (NoDup (sorted l)) as Hnd' by (rewrite sorted_perm; exact Hnd).
  pose proof (sorted_sorted l) as Hs. revert Hnd' Hs.
  generalize (sorted l) as r. induction r as [|x r IH]; intros Hnd' Hs.
  - constructor.
  - apply NoDup_cons in Hnd' as [Hx Hr]. inversion Hs as [|? ? Hs' Hall]; subst.
    constructor; [auto|].
    rewrite Forall_forall in Hall |- *. intros y Hy.
    specialize (Hall y Hy). unfold str_le in Hall.
    destruct (str_ltb x y) eqn:E; [reflexivity|].
    apply str_ltb_trichotomy in E; [|exact Hall]. subst y. contradiction.
Qed.

(** ** The crawl frontier *)

Section DiscoveryProofs.
Context `{Web}.

Lemma elem_of_add_product_links (u : pystr) (hrefs : list (option pystr)) (acc : gset pystr) (x : pystr) :
  x ∈ add_product_links u hrefs acc <->
  x ∈ acc \/ exists href, Some href ∈ hrefs /\ truthy href = true /\
                          x = absolute_url u href.
Proof.
  unfold add_product_links. revert acc.
  induction hrefs as [|a hrefs IH]; intros acc; simpl.
  - split; [auto|]. intros [?|(href & Hin & _)]; [done|]. inversion Hin.
  - rewrite IH. split.
    + intros [Hx|(href & Hin & Ht & ->)].
      * destruct a as [href|]; [|auto].
        destruct (truthy href) eqn:Ht; [|auto].
        apply elem_of_union in Hx as [Hx|Hx]; [|auto].
        apply elem_of_singleton in Hx. right. exists href.
        split; [left|]; auto.
      * right. exists href. split; [right|]; auto.
    + intros [Hx|(href & Hin & Ht & ->)].
      * left. destruct a as [href|]; [|auto].
        destruct (truthy href); [|auto]. set_solver.
      * apply elem_of_cons in Hin as [<-|Hin].
        -- left. rewrite Ht. set_solver.
        -- right. eauto.
Qed.

Lemma elem_of_product_links (u html x : pystr) :
  x ∈ product_links u html <->
  exists href, Some href ∈ select_hrefs html "a.button.product_type_simple" /\
               truthy href = true /\ x = absolute_url u href.
Proof.
  unfold product_links. rewrite list_elem_of_omap. split.
  - intros ([href|] & Hin & Hx); [|discriminate].
    destruct (truthy href) eqn:Ht; [|discriminate].
    injection Hx as <-. eauto.
  - intros (href & Hin & Ht & ->). exists (Some href). rewrite Ht. auto.
Qed.

Lemma add_product_links_union (u html : pystr) (acc : gset pystr) :
  add_product_links u (select_hrefs html "a.button.product_type_simple") acc
  = list_to_set (product_links u html) ∪ acc.
Proof.
  apply set_eq. intros x.
  rewrite elem_of_add_product_links, elem_of_union, elem_of_list_to_set,
    elem_of_product_links.
  tauto.
Qed.

Lemma loop_body_visited (u : pystr) (s : CrawlState) :
  u ∈ visited_listing_pages s -> loop_body u s = s.
Proof. intros Hu. unfold loop_body. rewrite decide_True; auto. Qed.

Lemma loop_body_fresh (u : pystr) (s : CrawlState) :
  u ∉ visited_listing_pages s ->
  loop_body u s =
    let visited := {[ u ]} ∪ visited_listing_pages s in
    {| product_urls := list_to_set (page_products u) ∪ product_urls s;
       visited_listing_pages := visited;
       queue := queue s ++ next_appends u visited;
       trace := trace s ++ EvFetch u :: map EvAppend (next_appends u visited) |}.
Proof.
  intros Hu. unfold loop_body, next_appends, page_products, page_next.
  rewrite decide_False by auto. cbv zeta.
  destruct (fetch_html u) as [html|].
  - rewrite add_product_links_union.
    destruct (next_page u html) as [v|].
    + destruct (decide (v ∈ {[u]} ∪ visited_listing_pages s)); simpl.
      * rewrite app_nil_r. reflexivity.
      * rewrite <- app_assoc. reflexivity.
    + simpl. rewrite app_nil_r. reflexivity.
  - simpl. rewrite app_nil_r. f_equal. set_solver.
Qed.

Lemma fetched_app (t1 t2 : list event) : fetched (t1 ++ t2) = fetched t1 ++ fetched t2.
Proof. unfold fetched. apply omap_app. Qed.

Lemma fetched_appends (l : list pystr) : fetched (map EvAppend l) = [].
Proof. induction l; simpl; auto. Qed.

Lemma appended_app (t1 t2 : list event) :
  appended (t1 ++ t2) = appended t1 ++ appended t2.
Proof. unfold appended. apply omap_app. Qed.

Lemma appended_appends (l : list pystr) : appended (map EvAppend l) = l.
Proof. induction l; simpl; [reflexivity|]. unfold appended in *. simpl. f_equal. auto. Qed.

Lemma elem_of_fetched (tr : list event) (u : pystr) :
  u ∈ fetched tr <-> EvFetch u ∈ tr.
Proof.
  unfold fetched. rewrite list_elem_of_omap. split.
  - intros ([w|w] & Hin & Hw); [|discriminate]. injection Hw as ->. exact Hin.
  - intros Hin. exists (EvFetch u). auto.
Qed.

Lemma elem_of_next_appends (u v : pystr) (visited : gset pystr) :
  v ∈ next_appends u visited <-> page_next u = Some v /\ v ∉ visited.
Proof.
  unfold next_appends. destruct (page_next u) as [w|].
  - destruct (decide (w ∈ visited)) as [Hw|Hw].
    + split; [intros Hin; inversion Hin|]. intros [[= ->] Hn]. contradiction.
    + rewrite list_elem_of_singleton. split.
      * intros ->. auto.
      * intros [[= ->] _]. reflexivity.
  - split; [intros Hin; inversion Hin|]. intros [[=] _].
Qed.

Lemma step_nil (s : CrawlState) : queue s = [] -> step s = s.
Proof. intros Hq. unfold step. rewrite Hq. reflexivity. Qed.

Lemma initial_inv (start_urls : list pystr) :
  crawl_inv start_urls (initial start_urls).
Proof.
  split; simpl.
  - constructor.
  - intros u. split; [intros Hin; inversion Hin|set_solver].
  - intros x. split; [set_solver|]. intros (u & Hu & _). set_solver.
  - intros u v Hu. set_solver.
  - auto.
  - intros u [Hu|Hu]; [set_solver|]. constructor. exact Hu.
  - intros i j u Hi. rewrite lookup_nil in Hi. discriminate.
  - lia.
Qed.

Lemma step_inv (start_urls : list pystr) (s : CrawlState) :
  crawl_inv start_urls s -> crawl_inv start_urls (step s).
Proof.
  intros Hinv. unfold step. destruct (queue s) as [|u q] eqn:Hq; [exact Hinv|].
  destruct Hinv as [Hnd Hf Hp Hn Hs Hr Ho Ha]. rewrite Hq in Hn, Hs, Hr.
  destruct (decide (u ∈ visited_listing_pages s)) as [Hu|Hu].
  - rewrite loop_body_visited by exact Hu.
    split; simpl; auto.
    + intros w v Hw Hnext. destruct (Hn w v Hw Hnext) as [?|Hin]; [auto|].
      apply elem_of_cons in Hin as [->|?]; auto.
    + intros w Hw. destruct (Hs w Hw) as [?|Hin]; [auto|].
      apply elem_of_cons in Hin as [->|?]; auto.
    + intros w [Hw|Hw]; apply Hr; [auto|]. right. right. exact Hw.
  - rewrite loop_body_fresh by exact Hu. cbv zeta.
    set (visited := {[u]} ∪ visited_listing_pages s).
    split; simpl.
    + rewrite fetched_app. simpl. rewrite fetched_appends.
      apply NoDup_app. split; [exact Hnd|]. split; [|apply NoDup_singleton].
      intros w Hw Hw'. apply list_elem_of_singleton in Hw' as ->.
      apply Hf in Hw. contradiction.
    + intros w. rewrite fetched_app. simpl. rewrite fetched_appends.
      rewrite elem_of_app, list_elem_of_singleton, Hf. unfold visited. set_solver.
    + intros x. rewrite elem_of_union, elem_of_list_to_set, Hp. unfold visited.
      split.
      * intros [Hx|(w & Hw & Hx)]; [exists u|exists w]; set_solver.
      * intros (w & Hw & Hx). apply elem_of_union in Hw as [Hw|Hw].
        -- apply elem_of_singleton in Hw as ->. auto.
        -- right. eauto.
    + intros w v Hw Hnext. rewrite elem_of_app, elem_of_next_appends.
      destruct (decide (v ∈ visited)) as [Hv|Hv]; [auto|].
      apply elem_of_union in Hw as [Hw|Hw].
      * apply elem_of_singleton in Hw as ->. auto.
      * destruct (Hn w v Hw Hnext) as [Hin|Hin]; [unfold visited; set_solver|].
        apply elem_of_cons in Hin as [->|Hin]; [unfold visited; set_solver|auto].
    + intros w Hw. rewrite elem_of_app. destruct (Hs w Hw) as [Hin|Hin].
      * left. unfold visited. set_solver.
      * apply elem_of_cons in Hin as [->|Hin]; [left; unfold visited; set_solver|auto].
    + intros w Hw. rewrite elem_of_app, elem_of_next_appends in Hw.
      assert (reachable start_urls u) as Hru by (apply Hr; right; left).
      destruct Hw as [Hw|[Hw|[Hw _]]].
      * apply elem_of_union in Hw as [Hw|Hw]; [apply elem_of_singleton in Hw as ->; auto|].
        apply Hr. auto.
      * apply Hr. right. right. exact Hw.
      * eapply reach_next; eauto.
    + intros i j w Hi Hj.
      destruct (decide (j < length (trace s))%nat) as [Hlt|Hge].
      * rewrite lookup_app_l in Hj by exact Hlt.
        destruct (decide (i < length (trace s))%nat) as [Hlt'|Hge'].
        -- rewrite lookup_app_l in Hi by exact Hlt'. eauto.
        -- lia.
      * rewrite lookup_app_r in Hj by lia.
        destruct (j - length (trace s))%nat as [|k] eqn:Hk; simpl in Hj; [discriminate|].
        apply list_elem_of_lookup_2 in Hj.
        apply list_elem_of_fmap in Hj as (v' & Hv & Hin). injection Hv as ->.
        apply elem_of_next_appends in Hin as [_ Hnv]. exfalso. apply Hnv.
        destruct (decide (i < length (trace s))%nat) as [Hlt'|Hge'].
        -- rewrite lookup_app_l in Hi by exact Hlt'.
           apply list_elem_of_lookup_2, elem_of_fetched, Hf in Hi.
           unfold visited. set_solver.
        -- rewrite lookup_app_r in Hi by lia.
           destruct (i - length (trace s))%nat as [|k'] eqn:Hk'; simpl in Hi.
           ++ injection Hi as ->. unfold visited. set_solver.
           ++ apply list_elem_of_lookup_2 in Hi.
              apply list_elem_of_fmap in Hi as (v'' & Hv' & _). discriminate.
    + rewrite fetched_app, appended_app, !length_app. simpl.
      rewrite fetched_appends. unfold appended at 2. simpl.
      fold (appended (map EvAppend (next_appends u visited))).
      rewrite appended_appends. simpl.
      assert (length (next_appends u visited) <= 1)%nat; [|unfold visited in *; lia].
      unfold next_appends. destruct (page_next u); [|simpl; lia].
      destruct (decide _); simpl; lia.
Qed.

Lemma after_inv (start_urls : list pystr) (n : nat) :
  crawl_inv start_urls (after n start_urls).
Proof.
  unfold after. induction n as [|n IH]; simpl.
  - apply initial_inv.
  - apply step_inv, IH.
Qed.

End DiscoveryProofs.

Section DiscoveryTermination.
Context `{Web}.

Lemma while_queue_after (fuel : nat) (s s' : CrawlState) :
  while_queue fuel s = Some s' ->
  exists n, (n <= fuel)%nat /\ s' = Nat.iter n step s /\ queue s' = [].
Proof.
  revert s. induction fuel as [|fuel IH]; intros s; simpl.
  - destruct (queue s) eqn:Hq; [|discriminate].
    intros [= <-]. exists O. auto.
  - destruct (queue s) eqn:Hq.
    + intros [= <-]. exists O. split; [lia|]. auto.
    + intros Hw. destruct (IH _ Hw) as (n & Hn & -> & Hq').
      exists (S n). split; [lia|]. split; [|exact Hq'].
      rewrite Nat.iter_succ_r. reflexivity.
Qed.

Lemma while_queue_more_fuel (fuel fuel' : nat) (s s' : CrawlState) :
  while_queue fuel s = Some s' -> (fuel <= fuel')%nat ->
  while_queue fuel' s = Some s'.
Proof.
  revert fuel' s. induction fuel as [|fuel IH]; intros fuel' s; simpl.
  - destruct (queue s) eqn:Hq; [|discriminate].
    intros [= <-] _. destruct fuel'; simpl; rewrite Hq; reflexivity.
  - destruct (queue s) eqn:Hq.
    + intros [= <-] _. destruct fuel'; simpl; rewrite Hq; reflexivity.
    + intros Hw Hle. destruct fuel' as [|fuel']; [lia|]. simpl. rewrite Hq.
      apply IH; [exact Hw|lia].
Qed.

Lemma while_queue_deterministic (f1 f2 : nat) (s s1 s2 : CrawlState) :
  while_queue f1 s = Some s1 -> while_queue f2 s = Some s2 -> s1 = s2.
Proof.
  intros H1 H2.
  apply (while_queue_more_fuel _ (max f1 f2)) in H1; [|lia].
  apply (while_queue_more_fuel _ (max f1 f2)) in H2; [|lia].
  congruence.
Qed.

(** The invariant holds of whatever state the loop ends in. *)
Lemma while_queue_inv (start_urls : list pystr) (fuel : nat) (s : CrawlState) :
  while_queue fuel (initial start_urls) = Some s ->
  crawl_inv start_urls s /\ queue s = [].
Proof.
  intros Hw. apply while_queue_after in Hw as (n & _ & -> & Hq).
  split; [apply (after_inv start_urls n)|exact Hq].
Qed.

Lemma step_measure (start_urls : list pystr) (pages : gset pystr) (s : CrawlState) :
  crawl_inv start_urls s ->
  (forall u, reachable start_urls u -> u ∈ pages) ->
  queue s <> [] ->
  (measure pages (step s) < measure pages s)%nat.
Proof.
  intros Hinv Hfin Hne. unfold step, measure.
  destruct (queue s) as [|u q] eqn:Hq; [contradiction|].
  destruct (decide (u ∈ visited_listing_pages s)) as [Hu|Hu].
  - rewrite loop_body_visited by exact Hu. simpl. lia.
  - rewrite loop_body_fresh by exact Hu. simpl.
    assert (u ∈ pages) as Hup.
    { apply Hfin, (inv_reach _ _ Hinv). right. rewrite Hq. left. }
    assert (pages ∖ ({[u]} ∪ visited_listing_pages s)
              ⊂ pages ∖ visited_listing_pages s) as Hsub.
    { split; [set_solver|]. intros Hc. specialize (Hc u). set_solver. }
    apply subset_size in Hsub.
    rewrite length_app.
    assert (length (next_appends u ({[u]} ∪ visited_listing_pages s)) <= 1)%nat.
    { unfold next_appends. destruct (page_next u); [|simpl; lia].
      destruct (decide _); simpl; lia. }
    lia.
Qed.

Lemma while_queue_terminates (start_urls : list pystr) (pages : gset pystr)
    (fuel : nat) (s : CrawlState) :
  crawl_inv start_urls s ->
  (forall u, reachable start_urls u -> u ∈ pages) ->
  (measure pages s <= fuel)%nat ->
  exists s', while_queue fuel s = Some s'.
Proof.
  intros Hinv Hfin. revert s Hinv.
  induction fuel as [|fuel IH]; intros s Hinv Hm; simpl.
  - destruct (queue s) eqn:Hq; [eauto|].
    unfold measure in Hm. rewrite Hq in Hm. simpl in Hm. lia.
  - destruct (queue s) eqn:Hq; [eauto|].
    apply IH; [apply step_inv, Hinv|].
    pose proof (step_measure start_urls pages s Hinv Hfin) as Hlt.
    rewrite Hq in Hlt. specialize (Hlt ltac:(discriminate)). lia.
Qed.

Lemma size_list_to_set_le (l : list pystr) :
  (size (list_to_set l : gset pystr) <= length l)%nat.
Proof.
  induction l as [|p l IH].
  - rewrite list_to_set_nil, size_empty. simpl. lia.
  - rewrite list_to_set_cons, size_union_alt, size_singleton. simpl.
    assert (size (list_to_set l ∖ {[p]} : gset pystr)
            <= size (list_to_set l : gset pystr))%nat.
    { apply subseteq_size. set_solver. }
    lia.
Qed.

(** A set that holds the start URLs and is closed under next-page links
    holds every reachable listing page. *)
Lemma reachable_closed (start_urls : list pystr) (pages : list pystr) :
  (forall u, u ∈ start_urls -> u ∈ pages) ->
  (forall u v, u ∈ pages -> page_next u = Some v -> v ∈ pages) ->
  forall u, reachable start_urls u -> u ∈ pages.
Proof.
  intros Hs Hc u Hr. induction Hr as [u Hu|u v _ IH Hn]; eauto.
Qed.

(** For a finite set of reachable listing pages the frontier loop empties
    the queue, within a number of turns bounded by the pages and the start
    URLs. *)
Lemma discover_terminates (start_urls pages : list pystr) :
  (forall u, reachable start_urls u -> u ∈ pages) ->
  exists s, while_queue (length pages + length start_urls) (initial start_urls) = Some s.
Proof.
  intros Hfin.
  apply (while_queue_terminates start_urls (list_to_set pages)).
  - apply initial_inv.
  - intros u Hu. apply elem_of_list_to_set, Hfin, Hu.
  - unfold measure. simpl.
    assert (size (list_to_set pages ∖ (∅ : gset pystr)) <= length pages)%nat.
    { etransitivity; [|apply size_list_to_set_le].
      apply subseteq_size. set_solver. }
    lia.
Qed.

End DiscoveryTermination.

Section DiscoveryResults.
Context `{Web}.

(** When the loop ends, the visited pages are exactly the reachable ones. *)
Lemma final_visited_reachable (start_urls : list pystr) (s : CrawlState) :
  crawl_inv start_urls s -> queue s = [] ->
  forall u, u ∈ visited_listing_pages s <-> reachable start_urls u.
Proof.
  intros Hinv Hq u. split.
  - intros Hu. apply (inv_reach _ _ Hinv). auto.
  - intros Hr. induction Hr as [u Hu|u v _ IH Hn].
    + destruct (inv_start _ _ Hinv u Hu) as [?|Hin]; [assumption|].
      rewrite Hq in Hin. inversion Hin.
    + destruct (inv_next _ _ Hinv u v IH Hn) as [?|Hin]; [assumption|].
      rewrite Hq in Hin. inversion Hin.
Qed.

End DiscoveryResults.

(** ** Claims about the crawl frontier *)

(** C2: during one run of [discover_product_urls] no listing-page URL is
    fetched more than once. At every turn of the loop, and in the state the
    loop ends in, the list of [fetch_html] calls made so far has no repeats,
    whatever the start URLs (repeated ones included) and whatever the links
    between the pages; the URLs fetched are exactly the ones marked visited. *)
Theorem no_listing_page_fetched_twice `{Web} (start_urls : list pystr) :
  (forall n, NoDup (fetched (trace (after n start_urls)))) /\
  (forall n u, u ∈ fetched (trace (after n start_urls))
               <-> u ∈ visited_listing_pages (after n start_urls)) /\
  (forall fuel s, while_queue fuel (initial start_urls) = Some s ->
                  NoDup (fetched (trace s))).
Proof.
  split; [|split].
  - intros n. apply (inv_nodup _ _ (after_inv start_urls n)).
  - intros n u. apply (inv_fetched _ _ (after_inv start_urls n)).
  - intros fuel s Hw. apply while_queue_inv in Hw as [Hinv _].
    apply (inv_nodup _ _ Hinv).
Qed.

(** C3: for a finite set of reachable listing pages [discover_product_urls]
    returns a list that is strictly increasing in the lexicographic order of
    URL strings (so sorted and free of duplicates), that holds exactly the
    product links of the reachable listing pages, that is the same for every
    amount of fuel and for every order in which the set is enumerated, and
    whose length is the number of distinct product URLs among all the links
    found. *)
Theorem discover_sorted_distinct `{Web} (start_urls pages : list pystr) :
  (forall u, reachable start_urls u -> u ∈ pages) ->
  exists r,
    discover_product_urls (length pages + length start_urls) start_urls = Some r /\
    (forall fuel r', discover_product_urls fuel start_urls = Some r' -> r' = r) /\
    StronglySorted (fun a b => str_ltb a b = true) r /\
    NoDup r /\
    (forall x, x ∈ r <->
               exists u, reachable start_urls u /\ x ∈ page_products u) /\
    (forall l, NoDup l -> (forall x, x ∈ l <-> x ∈ r) -> sorted l = r) /\
    (forall links,
       (forall x, x ∈ links <->
                  exists u, reachable start_urls u /\ x ∈ page_products u) ->
       length r = length (remove_dups links)).
Proof.
  intros Hfin.
  destruct (discover_terminates start_urls pages Hfin) as [s Hs].
  pose proof (while_queue_inv _ _ _ Hs) as [Hinv Hq].
  exists (sorted (elements (product_urls s))).
  assert (forall x, x ∈ sorted (elements (product_urls s)) <->
                    exists u, reachable start_urls u /\ x ∈ page_products u) as Hmem.
  { intros x. rewrite sorted_perm, elem_of_elements, (inv_products _ _ Hinv).
    split; intros (u & Hu & Hx); exists u; split; auto;
      apply (final_visited_reachable start_urls s Hinv Hq); exact Hu. }
  assert (NoDup (sorted (elements (product_urls s)))) as Hnd.
  { rewrite sorted_perm. apply NoDup_elements. }
  repeat split.
  - unfold discover_product_urls. rewrite Hs. reflexivity.
  - intros fuel r'. unfold discover_product_urls.
    destruct (while_queue fuel (initial start_urls)) as [s'|] eqn:Hs'; [|discriminate].
    intros [= <-]. rewrite (while_queue_deterministic _ _ _ _ _ Hs' Hs). reflexivity.
  - apply sorted_strict, NoDup_elements.
  - exact Hnd.
  - apply Hmem.
  - apply Hmem.
  - intros l Hl Hx. apply sorted_order_irrelevant, NoDup_Permutation.
    + exact Hl.
    + apply NoDup_elements.
    + intros x. rewrite Hx, sorted_perm. reflexivity.
  - intros links Hlinks. apply Permutation_length, NoDup_Permutation.
    + exact Hnd.
    + apply NoDup_remove_dups.
    + intros x. rewrite elem_of_remove_dups, Hlinks. apply Hmem.
Qed.

Lemma cycle_site_pages :
  forall u, @reachable cycle_site [py "/p1"] u -> u ∈ [py "/p1"; py "/p2"].
Proof.
  apply reachable_closed.
  - intros u Hu. apply list_elem_of_singleton in Hu as ->. left.
  - intros u v Hu. repeat (apply elem_of_cons in Hu as [->|Hu]);
      [| |inversion Hu]; vm_compute; intros [= <-].
    + right. left.
    + left.
Qed.

Lemma discover_sorted_distinct_witness :
  @discover_product_urls cycle_site 3 [py "/p1"]
  = Some [py "/a"; py "/b"; py "/c"].
Proof.
  destruct (@discover_sorted_distinct cycle_site [py "/p1"] [py "/p1"; py "/p2"]
              cycle_site_pages) as (r & Hr & Hdet & _).
  cbn [length Nat.add] in Hr. rewrite Hr. f_equal. symmetry.
  apply (Hdet 3%nat). vm_compute. reflexivity.
Defined.

(** C9, as the code has it: a URL is appended to the frontier only while it
    is not yet visited. In the record of calls every [queue.append(u)] comes
    before the fetch of [u], so a visited URL is never enqueued again, and a
    turn of the loop appends at most one URL. A URL that is queued but not
    yet visited can be appended again. *)
Theorem appended_only_before_fetch `{Web} (start_urls : list pystr)
    (n i j : nat) (u : pystr) :
  trace (after n start_urls) !! i = Some (EvFetch u) ->
  trace (after n start_urls) !! j = Some (EvAppend u) ->
  (j < i)%nat /\
  (length (appended (trace (after n start_urls)))
   <= length (fetched (trace (after n start_urls))))%nat.
Proof.
  intros Hi Hj. pose proof (after_inv start_urls n) as Hinv. split.
  - apply (inv_order _ _ Hinv i j u Hi Hj).
  - apply (inv_appends _ _ Hinv).
Qed.

Lemma appended_only_before_fetch_witness :
  (1 < 4)%nat /\
  (length (appended (trace (@after fan_in_site 3 [py "/x"; py "/y"])))
   <= length (fetched (trace (@after fan_in_site 3 [py "/x"; py "/y"]))))%nat.
Proof.
  apply (@appended_only_before_fetch fan_in_site [py "/x"; py "/y"] 3 4 1 (py "/z"));
    vm_compute; reflexivity.
Defined.

(** C9 as stated fails: with two start pages whose next-page links both
    point to a third page, that page is appended twice before it is visited. *)
Lemma enqueued_twice_counterexample :
  ~ (forall (W : Web) (start_urls : list pystr) (n : nat),
       NoDup (enqueued start_urls (@after W n start_urls))).
Proof.
  intros Hclaim.
  specialize (Hclaim fan_in_site [py "/x"; py "/y"] 2%nat).
  vm_compute in Hclaim.
  apply NoDup_cons in Hclaim as [_ Hclaim].
  apply NoDup_cons in Hclaim as [_ Hclaim].
  apply NoDup_cons in Hclaim as [Hz _].
  apply Hz. left.
Qed.

(** ** The pagination loop of the CSV variant *)

Section RunProofs.
Import CsvSku.
Context `{Browser}.

(** A page without product links ends the loop. *)
Lemma run_loop_no_products (fuel : nat) (u html : pystr) (st : RunState) :
  truthy u = true ->
  page_content u = Some html ->
  _parse_product_links html = [] ->
  run_loop (S fuel) u st = Some (load u st).
Proof.
  intros Hu Hc Hp. simpl. rewrite Hu, Hc, Hp. reflexivity.
Qed.

(** A page with product links and a next-page link to another URL sends the
    loop on to that URL. *)
Lemma run_loop_next (fuel : nat) (u html next_url : pystr) (st : RunState) :
  truthy u = true ->
  page_content u = Some html ->
  _parse_product_links html <> [] ->
  _get_next_page html = Some next_url ->
  truthy next_url = true ->
  next_url <> u ->
  run_loop (S fuel) u st
  = run_loop fuel next_url (process_links (_parse_product_links html) (load u st)).
Proof.
  intros Hu Hc Hp Hn Ht Hne. simpl. rewrite Hu, Hc. simpl.
  destruct (_parse_product_links html) as [|l ls] eqn:E; [contradiction|].
  rewrite Hn, Ht. simpl. rewrite bool_decide_eq_false_2 by exact Hne.
  reflexivity.
Qed.

Lemma process_links_loaded (links : list pystr) (st : RunState) :
  loaded (process_links links st) = loaded st.
Proof.
  unfold process_links. revert st.
  induction links as [|l links IH]; intros st; simpl; [reflexivity|].
  rewrite IH. destruct (decide _); [reflexivity|].
  destruct (extract_product l); reflexivity.
Qed.

End RunProofs.

(** ** Claims about pagination in both variants *)

Lemma cycle_browser_never_exits (fuel : nat) :
  forall st : CsvSku.RunState,
    @CsvSku.run_loop cycle_browser fuel (py "/p1") st = None /\
    @CsvSku.run_loop cycle_browser fuel (py "/p2") st = None.
Proof.
  induction fuel as [|fuel IH]; intros st.
  - split; reflexivity.
  - split.
    + rewrite (@run_loop_next cycle_browser fuel (py "/p1") (py "/p1") (py "/p2")).
      * apply IH.
      * reflexivity.
      * reflexivity.
      * vm_compute. discriminate.
      * vm_compute. reflexivity.
      * reflexivity.
      * vm_compute. discriminate.
    + rewrite (@run_loop_next cycle_browser fuel (py "/p2") (py "/p2") (py "/p1")).
      * apply IH.
      * reflexivity.
      * reflexivity.
      * vm_compute. discriminate.
      * vm_compute. reflexivity.
      * reflexivity.
      * vm_compute. discriminate.
Qed.

(** C1, the part the CSV variant misses: on two catalog pages whose
    next-page links point at each other, each with a product, the [while]
    loop of [VinilSulScraper.run] never exits: no amount of fuel is enough.
    The frontier loop of [discover_product_urls] does end on every finite
    set of reachable pages ([discover_terminates]). *)
Theorem run_loops_forever_on_two_page_cycle (fuel : nat) :
  @CsvSku.run cycle_browser fuel (py "/p1") = None.
Proof. unfold CsvSku.run. apply cycle_browser_never_exits. Qed.

(** The frontier loop of [discover_product_urls] ends for every finite set
    of reachable listing pages, pagination cycles included: after at most as
    many turns as there are pages and start URLs the queue is empty, and
    the pages visited are exactly the reachable ones, each fetched once. *)
Theorem frontier_loop_terminates `{Web} (start_urls pages : list pystr) :
  (forall u, reachable start_urls u -> u ∈ pages) ->
  exists s,
    while_queue (length pages + length start_urls) (initial start_urls) = Some s /\
    queue s = [] /\
    (forall u, u ∈ visited_listing_pages s <-> reachable start_urls u) /\
    NoDup (fetched (trace s)).
Proof.
  intros Hfin. destruct (discover_terminates start_urls pages Hfin) as [s Hs].
  exists s. pose proof (while_queue_inv _ _ _ Hs) as [Hinv Hq].
  repeat split; try assumption.
  - apply (final_visited_reachable _ _ Hinv Hq).
  - apply (final_visited_reachable _ _ Hinv Hq).
  - apply (inv_nodup _ _ Hinv).
Qed.

Lemma frontier_loop_terminates_witness :
  exists s, @while_queue cycle_site 3 (initial [py "/p1"]) = Some s /\ queue s = [].
Proof.
  destruct (@frontier_loop_terminates cycle_site [py "/p1"] [py "/p1"; py "/p2"]
              cycle_site_pages) as (s & Hs & Hq & _).
  exists s. split; [exact Hs|exact Hq].
Defined.

(** C4, as the code has it: in the JSON variant a listing page without
    product links still has its next-page link followed: at every turn the
    successor of a visited page is visited or queued, and when the loop ends
    it has been fetched. In the CSV variant the loop stops at a page
    without product links: its next-page link is not followed. *)
Theorem empty_listing_next_link `{Web} `{CsvSku.Browser} :
  (forall start_urls n u v,
     u ∈ visited_listing_pages (after n start_urls) ->
     page_products u = [] -> page_next u = Some v ->
     v ∈ visited_listing_pages (after n start_urls)
     \/ v ∈ queue (after n start_urls)) /\
  (forall start_urls fuel s u v,
     while_queue fuel (initial start_urls) = Some s ->
     u ∈ fetched (trace s) ->
     page_products u = [] -> page_next u = Some v ->
     v ∈ fetched (trace s)) /\
  (forall fuel u html st,
     truthy u = true ->
     CsvSku.page_content u = Some html ->
     CsvSku._parse_product_links html = [] ->
     CsvSku.run_loop (S fuel) u st = Some (CsvSku.load u st)).
Proof.
  split; [|split].
  - intros start_urls n u v Hu _ Hn.
    apply (inv_next _ _ (after_inv start_urls n) u v Hu Hn).
  - intros start_urls fuel s u v Hw Hu _ Hn.
    apply while_queue_inv in Hw as [Hinv Hq].
    apply (inv_fetched _ _ Hinv) in Hu. apply (inv_fetched _ _ Hinv).
    destruct (inv_next _ _ Hinv u v Hu Hn) as [?|Hin]; [assumption|].
    rewrite Hq in Hin. inversion Hin.
  - intros fuel u html st. apply run_loop_no_products.
Qed.

Lemma empty_listing_next_link_witness :
  py "/p1" ∈ fetched [EvFetch (py "/index"); EvAppend (py "/p1"); EvFetch (py "/p1")] /\
  @CsvSku.run_loop landing_browser 5 (py "/index")
    {| CsvSku.produtos := []; CsvSku.seen_links := ∅; CsvSku.loaded := [] |}
  = Some {| CsvSku.produtos := []; CsvSku.seen_links := ∅;
            CsvSku.loaded := [py "/index"] |}.
Proof.
  destruct (@empty_listing_next_link landing_site landing_browser) as (_ & Hjson & Hcsv).
  split.
  - apply (Hjson [py "/index"] 5%nat
             {| product_urls := {[ py "/a" ]};
                visited_listing_pages := {[ py "/index"; py "/p1" ]};
                queue := [];
                trace := [EvFetch (py "/index"); EvAppend (py "/p1");
                          EvFetch (py "/p1")] |}
             (py "/index") (py "/p1")).
    + vm_compute. reflexivity.
    + left.
    + vm_compute. reflexivity.
    + vm_compute. reflexivity.
  - apply (Hcsv 4%nat (py "/index") (py "/index")); vm_compute; reflexivity.
Defined.

(** C4 as stated fails for the CSV variant: on a landing page with no
    product links and a next-page link, [run] ends after loading the landing
    page alone. *)
Lemma csv_next_link_not_followed_counterexample :
  exists html st,
    @CsvSku.page_content landing_browser (py "/index") = Some html /\
    @CsvSku._parse_product_links landing_browser html = [] /\
    @CsvSku._get_next_page landing_browser html = Some (py "/p1") /\
    @CsvSku.run landing_browser 5 (py "/index") = Some st /\
    py "/p1" ∉ CsvSku.loaded st.
Proof.
  exists (py "/index"). eexists. repeat split; try (vm_compute; reflexivity).
  vm_compute. intros Hin. apply list_elem_of_singleton in Hin. discriminate.
Qed.

(** ** The product extractor *)

Section ExtractionProofs.
Context `{Web} `{Bs4 Tag} `{Unicode}.

Lemma try_except_guarded {A} (body : result A) (default : A) :
  try_except body (Ok default) = Ok (guarded body default).
Proof. destruct body; reflexivity. Qed.

(** The [advantages] block computes the field from the page alone. *)
Lemma advantages_block_alone (soup : Tag) :
  (advantages_block soup).2 = advantages_alone soup.
Proof.
  unfold advantages_block, advantages_alone.
  destruct (select_one soup "div#tab-description") as [desc_tab|]; simpl;
    [|reflexivity].
  destruct (advantages_of desc_tab); reflexivity.
Qed.

(** So does the [technical_info] block, whatever the [advantages] block
    did before it: when that block raised before binding [desc_tab], the
    lookup it failed on fails again here. *)
Lemma technical_info_body_alone (soup : Tag) :
  guarded (technical_info_body soup (advantages_block soup).1) []
  = technical_info_alone soup.
Proof.
  unfold advantages_block, technical_info_alone, technical_info_body.
  destruct (select_one soup "div#tab-description") as [desc_tab|] eqn:Hsel; simpl;
    [|reflexivity].
  destruct desc_tab as [t|]; reflexivity.
Qed.

(** From the parsed page on, the extractor returns a record, each field
    of which is the field's own guarded extraction. *)
Lemma extract_fields_alone (product_url : pystr) (soup : Tag) :
  extract_fields product_url soup =
    Ok {| url := product_url;
          title := title_alone soup;
          short_description := short_description_alone soup;
          categories := categories_alone soup;
          tags := tags_alone soup;
          advantages := advantages_alone soup;
          technical_info := technical_info_alone soup |}.
Proof.
  unfold extract_fields.
  rewrite !try_except_guarded. simpl.
  pose proof (advantages_block_alone soup) as Ha.
  pose proof (technical_info_body_alone soup) as Ht.
  destruct (advantages_block soup) as [binding adv].
  simpl in Ha, Ht. subst adv.
  rewrite try_except_guarded. simpl. rewrite Ht. reflexivity.
Qed.

(** A page that was fetched yields a record, each field of which is the
    field's own guarded extraction. *)
Lemma scrape_fetched (product_url html : pystr) :
  fetch_html product_url = Some html ->
  scrape_product_details product_url =
    Ok {| url := product_url;
          title := title_alone (BeautifulSoup html);
          short_description := short_description_alone (BeautifulSoup html);
          categories := categories_alone (BeautifulSoup html);
          tags := tags_alone (BeautifulSoup html);
          advantages := advantages_alone (BeautifulSoup html);
          technical_info := technical_info_alone (BeautifulSoup html) |}.
Proof.
  intros Hf. unfold scrape_product_details. rewrite Hf.
  apply extract_fields_alone.
Qed.

Lemma scrape_not_fetched (product_url : pystr) :
  fetch_html product_url = None ->
  scrape_product_details product_url = Ok (empty_record product_url).
Proof. intros Hf. unfold scrape_product_details. rewrite Hf. reflexivity. Qed.

Lemma scrape_total (product_url : pystr) :
  exists r, scrape_product_details product_url = Ok r /\ url r = product_url.
Proof.
  destruct (fetch_html product_url) as [html|] eqn:Hf.
  - rewrite (scrape_fetched _ _ Hf). eauto.
  - rewrite (scrape_not_fetched _ Hf). eauto.
Qed.

Lemma record_for_url (product_url : pystr) : url (record_for product_url) = product_url.
Proof.
  unfold record_for. destruct (scrape_total product_url) as (r & -> & Hr). exact Hr.
Qed.

(** [main]'s loop appends one record per URL, in order. *)
Lemma main_loop_map (product_urls : list pystr) :
  main_loop product_urls = map record_for product_urls.
Proof.
  unfold main_loop.
  assert (forall acc, fold_left (fun results u =>
            results ++ [match scrape_product_details u with
                        | Ok details => details
                        | Raise => empty_record u
                        end]) product_urls acc
          = acc ++ map record_for product_urls) as Hgen.
  { induction product_urls as [|u l IH]; intros acc; simpl.
    - rewrite app_nil_r. reflexivity.
    - rewrite IH, <- app_assoc. reflexivity. }
  apply Hgen.
Qed.

(** *** Headings and paragraphs *)

Lemma find_target_h2_skip (before rest : list Tag) :
  Forall other_heading before ->
  find_target_h2 (before ++ rest) = find_target_h2 rest.
Proof.
  induction 1 as [|h before (t & Ht & Hc) _ IH]; simpl; [reflexivity|].
  rewrite Ht. simpl. rewrite Hc. exact IH.
Qed.

Lemma find_target_h2_none (h2_list : list Tag) :
  Forall other_heading h2_list -> find_target_h2 h2_list = Ok None.
Proof.
  intros Hall. rewrite <- (app_nil_r h2_list).
  rewrite find_target_h2_skip by exact Hall. reflexivity.
Qed.


(** One entry per list item, in document order; empty texts are left out. *)
Lemma li_texts_spec (lis : list Tag) (texts : list pystr) :
  Forall2 (fun li t => get_text li (py " ") = Ok t) lis texts ->
  li_texts lis = Ok (filter (fun t => truthy t = true) texts).
Proof.
  induction 1 as [|li t lis texts Ht _ IH]; simpl; [reflexivity|].
  rewrite Ht. simpl. rewrite IH. simpl.
  destruct (truthy t) eqn:E.
  - rewrite filter_cons_True by exact E. reflexivity.
  - rewrite filter_cons_False by (rewrite E; discriminate). reflexivity.
Qed.

End ExtractionProofs.

(** *** Trimming *)

Lemma str_lstrip_no_lead (s : pystr) : no_lead (str_lstrip s).
Proof.
  induction s as [|c s IH]; simpl; [exact I|].
  destruct (isspace c) eqn:E; [exact IH|exact E].
Qed.

Lemma str_lstrip_id (s : pystr) : no_lead s -> str_lstrip s = s.
Proof. destruct s as [|c s]; simpl; [reflexivity|]. intros ->. reflexivity. Qed.

Lemma str_lstrip_suffix (s : pystr) : exists p, s = p ++ str_lstrip s.
Proof.
  induction s as [|c s (p & IH)]; simpl.
  - exists []. reflexivity.
  - destruct (isspace c).
    + exists (c :: p). simpl. f_equal. exact IH.
    + exists []. reflexivity.
Qed.

Lemma no_lead_rev_suffix (p t : pystr) : no_lead (rev (p ++ t)) -> no_lead (rev t).
Proof.
  rewrite rev_app_distr. destruct (rev t) as [|c r]; simpl; [trivial|auto].
Qed.

Lemma str_strip_ends (s : pystr) :
  no_lead (str_strip s) /\ no_lead (rev (str_strip s)).
Proof.
  unfold str_strip, str_rstrip. split; [apply str_lstrip_no_lead|].
  destruct (str_lstrip_suffix (rev (str_lstrip (rev s)))) as (p & Hp).
  apply (no_lead_rev_suffix p). rewrite <- Hp, rev_involutive.
  apply str_lstrip_no_lead.
Qed.

(** Trimming a trimmed string changes nothing. *)
Lemma str_strip_idem (s : pystr) : str_strip (str_strip s) = str_strip s.
Proof.
  destruct (str_strip_ends s) as [Hl Hr].
  unfold str_strip at 1. unfold str_rstrip.
  rewrite (str_lstrip_id _ Hr), rev_involutive. apply str_lstrip_id, Hl.
Qed.

(** *** The technical-information lines *)

Section TechnicalInfo.
Context `{Bs4 Tag} `{Unicode}.


Lemma dict_set_key_ok (key value : pystr) (d : pydict) :
  key_ok (key, value) -> Forall key_ok d -> Forall key_ok (dict_set key value d).
Proof.
  intros Hk. induction 1 as [|[k v] d Hkv Hd IH]; simpl.
  - constructor; [exact Hk|constructor].
  - destruct (decide (k = key)).
    + constructor; [exact Hkv|exact Hd].
    + constructor; [exact Hkv|exact IH].
Qed.

Lemma parse_parts_key_ok (parts : list pystr) (d d' : pydict) :
  Forall key_ok d -> parse_parts parts d = Ok d' -> Forall key_ok d'.
Proof.
  revert d. induction parts as [|part rest IH]; intros d Hd; simpl.
  - intros [= <-]. exact Hd.
  - destruct (truthy part); simpl; [|apply IH, Hd].
    destruct (get_text (BeautifulSoup part) (py " ")) as [text|]; simpl;
      [|discriminate].
    destruct (truthy text); simpl; [|apply IH, Hd].
    destruct (str_startswith (str_lower text) (py "informações técnicas"));
      [apply IH, Hd|].
    destruct (str_contains (py ":") text); [|apply IH, Hd].
    destruct (str_split1 (py ":") text) as [|k [|v [|? ?]]]; try discriminate.
    destruct (truthy (str_strip k)) eqn:Hk; [|apply IH, Hd].
    apply IH, dict_set_key_ok; [|exact Hd].
    split; simpl; [rewrite str_strip_idem; exact Hk|apply str_strip_idem].
Qed.

Lemma technical_info_of_key_ok (desc_tab : option Tag) (d : pydict) :
  technical_info_of desc_tab = Ok d -> Forall key_ok d.
Proof.
  unfold technical_info_of. destruct desc_tab as [tab|]; [|intros [= <-]; constructor].
  destruct (select tab "p") as [p_list|]; simpl; [|discriminate].
  destruct (find_target_p p_list) as [[p|]|]; simpl;
    [|intros [= <-]; constructor|discriminate].
  destruct (decode_contents p) as [raw|]; simpl; [|discriminate].
  apply parse_parts_key_ok. constructor.
Qed.

Lemma technical_info_alone_key_ok (soup : Tag) :
  Forall key_ok (technical_info_alone soup).
Proof.
  unfold technical_info_alone.
  destruct (select_one soup "div#tab-description") as [desc_tab|]; simpl;
    [|constructor].
  destruct (technical_info_of desc_tab) as [d|] eqn:E; simpl; [|constructor].
  apply (technical_info_of_key_ok _ _ E).
Qed.

(** A line whose label is empty after trimming adds nothing. *)
Lemma parse_parts_empty_label (part text k v : pystr) (rest : list pystr) (d : pydict) :
  get_text (BeautifulSoup part) (py " ") = Ok text ->
  str_split1 (py ":") text = [k; v] ->
  str_strip k = [] ->
  parse_parts (part :: rest) d = parse_parts rest d.
Proof.
  intros Ht Hs Hk. simpl. destruct (truthy part); simpl; [|reflexivity].
  rewrite Ht. simpl. destruct (truthy text); simpl; [|reflexivity].
  destruct (str_startswith _ _); [reflexivity|].
  destruct (str_contains _ _); [|reflexivity].
  rewrite Hs, Hk. reflexivity.
Qed.


(** A line without a colon is skipped. *)
Lemma parse_parts_no_colon (part text : pystr) (rest : list pystr) (d : pydict) :
  get_text (BeautifulSoup part) (py " ") = Ok text ->
  str_contains (py ":") text = false ->
  parse_parts (part :: rest) d = parse_parts rest d.
Proof.
  intros Ht Hc. simpl. destruct (truthy part); simpl; [|reflexivity].
  rewrite Ht. simpl. destruct (truthy text); simpl; [|reflexivity].
  destruct (str_startswith _ _); [reflexivity|].
  rewrite Hc. reflexivity.
Qed.


End TechnicalInfo.

(** ** Claims about the extractor and the pipeline *)

(** Where [session.get] raises nothing but a [requests.RequestException]
    and the parser accepts every page, [scrape_product_details] is the
    function of the same name above. *)
Lemma unguarded_agrees `{Web} `{Bs4 Tag} `{Unicode} `{Unguarded.Calls Tag}
    (product_url : pystr) :
  (forall u, Unguarded.get u = match session_get u with
                               | Ok r => Unguarded.Got r
                               | Raise => Unguarded.RequestException
                               end) ->
  (forall html, Unguarded.make_soup html = Ok (BeautifulSoup html)) ->
  Unguarded.scrape_product_details product_url = scrape_product_details product_url.
Proof.
  intros Hget Hsoup.
  unfold Unguarded.scrape_product_details, Unguarded.fetch_html,
    scrape_product_details, fetch_html.
  rewrite Hget. destruct (session_get product_url) as [[[|] text]|];
    cbn [mbind result_bind]; try reflexivity.
  rewrite Hsoup. reflexivity.
Qed.

(** C5, as the code has it: [scrape_product_details] raises to its caller
    exactly when one of the two calls it makes outside its [try] blocks
    raises: [session.get] with an exception that is not a
    [requests.RequestException], or the parser constructor on the fetched
    page. In every other case it returns a record whose [url] is the input
    URL: the empty record when the page could not be fetched, and otherwise
    a record each field of which is that field's own guarded extraction
    from the page, so a field that fails takes its default and the other
    fields keep the values they have without the failure. When no target
    selector matches, every field but [url] is null or empty. *)
Theorem scrape_raises_only_unguarded `{Bs4 Tag} `{Unicode} `{Unguarded.Calls Tag}
    (product_url : pystr) :
  (Unguarded.scrape_product_details product_url = Raise <->
   Unguarded.get product_url = Unguarded.OtherException \/
   exists html,
     Unguarded.fetch_html product_url = Ok (Some html) /\
     Unguarded.make_soup html = Raise) /\
  (forall r,
     Unguarded.scrape_product_details product_url = Ok r -> url r = product_url) /\
  (Unguarded.fetch_html product_url = Ok None ->
   Unguarded.scrape_product_details product_url = Ok (empty_record product_url)) /\
  (forall html soup,
     Unguarded.fetch_html product_url = Ok (Some html) ->
     Unguarded.make_soup html = Ok soup ->
     exists r,
       Unguarded.scrape_product_details product_url = Ok r /\
       title r = title_alone soup /\
       short_description r = short_description_alone soup /\
       categories r = categories_alone soup /\
       tags r = tags_alone soup /\
       advantages r = advantages_alone soup /\
       technical_info r = technical_info_alone soup /\
       ((forall sel, sel ∈ target_selectors -> select_one soup sel = Ok None) ->
        r = empty_record product_url)).
Proof.
  unfold Unguarded.scrape_product_details.
  split; [|split; [|split]].
  - unfold Unguarded.fetch_html.
    destruct (Unguarded.get product_url) as [[[|] text]| |] eqn:Hget;
      cbn [mbind result_bind].
    + destruct (Unguarded.make_soup text) as [soup|] eqn:Hsoup;
        cbn [mbind result_bind].
      * rewrite extract_fields_alone. split; [discriminate|].
        intros [Hc|(html & [= <-] & Hc)]; [discriminate|congruence].
      * split; [|reflexivity]. intros _. right. exists text.
        split; [reflexivity|exact Hsoup].
    + split; [discriminate|]. intros [Hc|(html & Hc & _)]; discriminate.
    + split; [discriminate|]. intros [Hc|(html & Hc & _)]; discriminate.
    + split; [|reflexivity]. intros _. left. reflexivity.
  - intros r.
    destruct (Unguarded.fetch_html product_url) as [[html|]|];
      cbn [mbind result_bind]; [|intros [= <-]; reflexivity|discriminate].
    destruct (Unguarded.make_soup html) as [soup|];
      cbn [mbind result_bind]; [|discriminate].
    rewrite extract_fields_alone. intros [= <-]. reflexivity.
  - intros ->. reflexivity.
  - intros html soup -> Hsoup. cbn [mbind result_bind]. rewrite Hsoup.
    cbn [mbind result_bind]. rewrite extract_fields_alone.
    eexists. split; [reflexivity|]. cbn [title short_description categories tags
      advantages technical_info].
    repeat (split; [reflexivity|]).
    intros Hnone. unfold empty_record. f_equal.
    + unfold title_alone, text_of_first.
      rewrite Hnone by (unfold target_selectors; set_solver). reflexivity.
    + unfold short_description_alone, text_of_first.
      rewrite Hnone by (unfold target_selectors; set_solver). reflexivity.
    + unfold categories_alone, span_anchor_texts.
      rewrite Hnone by (unfold target_selectors; set_solver). reflexivity.
    + unfold tags_alone, span_anchor_texts.
      rewrite Hnone by (unfold target_selectors; set_solver). reflexivity.
    + unfold advantages_alone.
      rewrite Hnone by (unfold target_selectors; set_solver). reflexivity.
    + unfold technical_info_alone.
      rewrite Hnone by (unfold target_selectors; set_solver). reflexivity.
Qed.

(** C5 as stated fails: on a URL whose host has a label of 64 characters
    [session.get] raises an exception that [fetch_html] does not catch,
    and [scrape_product_details] raises to its caller. *)
Lemma scrape_raises_counterexample :
  @Unguarded.scrape_product_details _ toy_bs4 latin1_unicode long_label_calls
    long_label_url = Raise.
Proof. vm_compute. reflexivity. Qed.

(** On the sample page the tag span raises; the tags are empty and every
    other field is extracted. A page the parser rejects, outside the
    [try] blocks, gives no record at all. *)
Example scrape_sample_page :
  @scrape_product_details shop_web _ toy_bs4 latin1_unicode (py "/produto/lona")
  = Ok {| url := py "/produto/lona"; title := Some (py "Lona Front");
          short_description := None; categories := [py "Lonas"]; tags := [];
          advantages := [py "A"; py "B"];
          technical_info := [(py "Cor", py "Vermelho"); (py "Tamanho", py "M")] |}.
Proof. vm_compute. reflexivity. Qed.

Example scrape_sample_page_unguarded :
  @Unguarded.scrape_product_details _ toy_bs4 latin1_unicode long_label_calls
    (py "/produto/lona")
  = @scrape_product_details shop_web _ toy_bs4 latin1_unicode (py "/produto/lona") /\
  @Unguarded.scrape_product_details _ toy_bs4 latin1_unicode rejecting_calls
    (py "/produto/lona") = Raise.
Proof. split; vm_compute; reflexivity. Qed.

(** A page on which no target selector matches gives the empty record. *)
Example scrape_bare_page :
  @Unguarded.scrape_product_details _ bare_bs4 latin1_unicode long_label_calls
    (py "/produto/lona")
  = Ok (empty_record (py "/produto/lona")).
Proof. vm_compute. reflexivity. Qed.



(** C7, as the code has it: when the first [h2] of the description tab
    whose text contains the marker word, in any letter case, is followed by
    the list of items [A] and [B], [advantages] is [["A", "B"]]: one entry
    per list item, in document order. A matching heading after the first
    one is not looked at. With no such heading, or no list after the first
    one, [advantages] is empty. *)
Theorem advantages_example `{Web} `{Bs4 Tag} `{Unicode}
    (product_url html : pystr) (tab : Tag) (h2_list : list Tag) :
  fetch_html product_url = Some html ->
  select_one (BeautifulSoup html) "div#tab-description" = Ok (Some tab) ->
  select tab "h2" = Ok h2_list ->
  exists r,
    scrape_product_details product_url = Ok r /\
    (forall before h2 rest heading ul liA liB,
       h2_list = before ++ h2 :: rest ->
       Forall other_heading before ->
       get_text h2 (py " ") = Ok heading ->
       str_contains (py "vantagens") (str_lower heading) = true ->
       find_next h2 "ul" = Ok (Some ul) ->
       select ul "li" = Ok [liA; liB] ->
       get_text liA (py " ") = Ok (py "A") ->
       get_text liB (py " ") = Ok (py "B") ->
       advantages r = [py "A"; py "B"]) /\
    (forall before h2 rest heading ul lis texts,
       h2_list = before ++ h2 :: rest ->
       Forall other_heading before ->
       get_text h2 (py " ") = Ok heading ->
       str_contains (py "vantagens") (str_lower heading) = true ->
       find_next h2 "ul" = Ok (Some ul) ->
       select ul "li" = Ok lis ->
       Forall2 (fun li t => get_text li (py " ") = Ok t) lis texts ->
       advantages r = filter (fun t => truthy t = true) texts) /\
    (Forall other_heading h2_list -> advantages r = []) /\
    (forall before h2 rest heading,
       h2_list = before ++ h2 :: rest ->
       Forall other_heading before ->
       get_text h2 (py " ") = Ok heading ->
       str_contains (py "vantagens") (str_lower heading) = true ->
       find_next h2 "ul" = Ok None ->
       advantages r = []).
Proof.
  intros Hf Htab Hh2.
  eexists. split; [apply (scrape_fetched _ _ Hf)|]. simpl.
  unfold advantages_alone. rewrite Htab. cbn [mbind result_bind].
  unfold advantages_of. rewrite Hh2. cbn [mbind result_bind].
  assert (forall before h2 rest heading,
            h2_list = before ++ h2 :: rest ->
            Forall other_heading before ->
            get_text h2 (py " ") = Ok heading ->
            str_contains (py "vantagens") (str_lower heading) = true ->
            find_target_h2 h2_list = Ok (Some h2)) as Hfound.
  { intros before h2 rest heading -> Hb Ht Hc.
    rewrite (find_target_h2_skip _ _ Hb). cbn [find_target_h2].
    rewrite Ht. cbn [mbind result_bind]. rewrite Hc. reflexivity. }
  assert (forall before h2 rest heading ul lis texts,
       h2_list = before ++ h2 :: rest ->
       Forall other_heading before ->
       get_text h2 (py " ") = Ok heading ->
       str_contains (py "vantagens") (str_lower heading) = true ->
       find_next h2 "ul" = Ok (Some ul) ->
       select ul "li" = Ok lis ->
       Forall2 (fun li t => get_text li (py " ") = Ok t) lis texts ->
       guarded
         (find_target_h2 h2_list ≫= fun target_h2 =>
            match target_h2 with
            | Some target_h2 =>
              find_next target_h2 "ul" ≫= fun ul =>
                match ul with
                | Some ul => select ul "li" ≫= fun lis => li_texts lis
                | None => Ok []
                end
            | None => Ok []
            end) []
       = filter (fun t => truthy t = true) texts) as Hgen.
  { intros before h2 rest heading ul lis texts Heq Hb Ht Hc Hul Hlis Htexts.
    rewrite (Hfound _ _ _ _ Heq Hb Ht Hc). cbn [mbind result_bind].
    rewrite Hul. cbn [mbind result_bind]. rewrite Hlis. cbn [mbind result_bind].
    rewrite (li_texts_spec _ _ Htexts). reflexivity. }
  split; [|split; [|split]].
  - intros before h2 rest heading ul liA liB Heq Hb Ht Hc Hul Hlis HA HB.
    rewrite (Hgen before h2 rest heading ul [liA; liB] [py "A"; py "B"]);
      auto.
  - exact Hgen.
  - intros Hall. rewrite (find_target_h2_none _ Hall). reflexivity.
  - intros before h2 rest heading Heq Hb Ht Hc Hul.
    rewrite (Hfound _ _ _ _ Heq Hb Ht Hc). cbn [mbind result_bind].
    rewrite Hul. reflexivity.
Qed.

Lemma advantages_example_witness :
  exists r,
    @scrape_product_details shop_web _ toy_bs4 latin1_unicode (py "/produto/lona") = Ok r /\
    advantages r = [py "A"; py "B"].
Proof.
  destruct (@advantages_example shop_web _ toy_bs4 latin1_unicode
              (py "/produto/lona") (py "LONA") (El "tab") [El "h2-intro"; El "h2-adv"])
    as (r & Hr & HAB & _).
  - vm_compute. reflexivity.
  - vm_compute. reflexivity.
  - reflexivity.
  - exists r. split; [exact Hr|].
    apply (HAB [El "h2-intro"] (El "h2-adv") [] (py "Principais VANTAGENS")
             (El "ul") (El "li-a") (El "li-b")); try reflexivity.
    constructor; [|constructor].
    exists (py "Sobre o produto"). split; vm_compute; reflexivity.
Defined.

(** C7 as stated fails: on a tab where the heading [Desvantagens], with a
    list of its own, stands before the heading [Vantagens] and its list of
    [A] and [B], the marker is found in the first heading and [advantages]
    is the other list. *)
Lemma advantages_first_match_counterexample :
  exists tab h2 heading ul liA liB r,
    @select_one _ rival_bs4 (@BeautifulSoup _ rival_bs4 (py "LONA")) "div#tab-description"
    = Ok (Some tab) /\
    (exists before rest, @select _ rival_bs4 tab "h2" = Ok (before ++ h2 :: rest)) /\
    @get_text _ rival_bs4 h2 (py " ") = Ok heading /\
    str_contains (py "vantagens") (@str_lower latin1_unicode heading) = true /\
    @find_next _ rival_bs4 h2 "ul" = Ok (Some ul) /\
    @select _ rival_bs4 ul "li" = Ok [liA; liB] /\
    @get_text _ rival_bs4 liA (py " ") = Ok (py "A") /\
    @get_text _ rival_bs4 liB (py " ") = Ok (py "B") /\
    @scrape_product_details shop_web _ rival_bs4 latin1_unicode (py "/produto/lona") = Ok r /\
    advantages r = [py "X"] /\
    advantages r <> [py "A"; py "B"].
Proof.
  exists (El "tab"), (El "h2-adv"), (py "Vantagens"), (El "ul-adv"),
    (El "li-a"), (El "li-b").
  eexists. split; [vm_compute; reflexivity|].
  split; [exists [El "h2-dis"], []; reflexivity|].
  repeat (split; [vm_compute; reflexivity|]).
  vm_compute. discriminate.
Qed.

Lemma filter_url_absent `{Web} `{Bs4 Tag} `{Unicode} (u : pystr) (l : list pystr) :
  u ∉ l -> filter (fun r => url r = u) (map record_for l) = [].
Proof.
  induction l as [|x l IH]; intros Hu; simpl; [reflexivity|].
  rewrite filter_cons_False.
  - apply IH. intros Hin. apply Hu. right. exact Hin.
  - rewrite record_for_url. intros ->. apply Hu. left.
Qed.

(** C8: when [fetch_html] returns [None] for a discovered product URL,
    [main] still appends exactly one record for it, the record with that
    URL and every other field null or empty; [main] appends one record per
    URL, and the records before and after are the ones the other URLs give
    on their own. *)
Theorem failed_fetch_one_empty_record `{Web} `{Bs4 Tag} `{Unicode}
    (fuel : nat) (results : list ProductRecord) :
  main fuel = Some results ->
  exists product_urls,
    discover_product_urls fuel start_urls = Some product_urls /\
    map url results = product_urls /\
    forall u,
      u ∈ product_urls -> fetch_html u = None ->
      filter (fun r => url r = u) results = [empty_record u] /\
      exists before rest,
        product_urls = before ++ u :: rest /\
        results = main_loop before ++ empty_record u :: main_loop rest.
Proof.
  unfold main.
  destruct (discover_product_urls fuel start_urls) as [product_urls|] eqn:Hd;
    [|discriminate].
  intros [= <-]. exists product_urls. split; [reflexivity|].
  rewrite main_loop_map. split.
  - rewrite map_map. rewrite <- (map_id product_urls) at 2.
    apply map_ext. intros u. apply record_for_url.
  - intros u Hu Hf.
    assert (NoDup product_urls) as Hnd.
    { unfold discover_product_urls in Hd.
      destruct (while_queue fuel (initial start_urls)); [|discriminate].
      injection Hd as <-. rewrite sorted_perm. apply NoDup_elements. }
    apply list_elem_of_split in Hu as (before & rest & ->).
    apply NoDup_app in Hnd as (_ & Hb & Hr).
    apply NoDup_cons in Hr as [Hr _].
    assert (record_for u = empty_record u) as He.
    { unfold record_for. rewrite (scrape_not_fetched _ Hf). reflexivity. }
    split.
    + rewrite map_app, filter_app. simpl.
      rewrite filter_cons_True by apply record_for_url.
      rewrite !filter_url_absent; [rewrite He; reflexivity|exact Hr|].
      intros Hin. apply (Hb u Hin). left.
    + exists before, rest. split; [reflexivity|].
      rewrite !main_loop_map, map_app. simpl. rewrite He. reflexivity.
Qed.

Lemma failed_fetch_one_empty_record_witness :
  filter (fun r => url r = py "/produto/fita")
    [empty_record (py "/produto/fita");
     @record_for shop_web _ toy_bs4 latin1_unicode (py "/produto/lona")]
  = [empty_record (py "/produto/fita")].
Proof.
  destruct (@failed_fetch_one_empty_record shop_web _ toy_bs4 latin1_unicode 5%nat
              [empty_record (py "/produto/fita");
               @record_for shop_web _ toy_bs4 latin1_unicode (py "/produto/lona")])
    as (product_urls & Hd & _ & Hone).
  - vm_compute. reflexivity.
  - apply (Hone (py "/produto/fita")).
    + assert (product_urls = [py "/produto/fita"; py "/produto/lona"]) as ->.
      { assert (Some product_urls = Some [py "/produto/fita"; py "/produto/lona"])
          as Heq by (rewrite <- Hd; vm_compute; reflexivity).
        injection Heq as ->. reflexivity. }
      left.
    + vm_compute. reflexivity.
Defined.

(** C10: every key of the [technical_info] mapping is a non-empty string
    with nothing left to trim, and a line whose text before the first colon
    is empty or white space only adds no entry. *)
Theorem technical_info_keys_nonempty `{Web} `{Bs4 Tag} `{Unicode}
    (product_url : pystr) (r : ProductRecord) :
  scrape_product_details product_url = Ok r ->
  (forall k v, (k, v) ∈ technical_info r -> str_strip k <> [] /\ str_strip k = k) /\
  (forall part text k v rest d,
     get_text (BeautifulSoup part) (py " ") = Ok text ->
     str_split1 (py ":") text = [k; v] ->
     str_strip k = [] ->
     parse_parts (part :: rest) d = parse_parts rest d).
Proof.
  intros Hs. split.
  - assert (Forall key_ok (technical_info r)) as Hall.
    { destruct (fetch_html product_url) as [html|] eqn:Hf.
      - rewrite (scrape_fetched _ _ Hf) in Hs. injection Hs as <-. simpl.
        apply technical_info_alone_key_ok.
      - rewrite (scrape_not_fetched _ Hf) in Hs. injection Hs as <-. constructor. }
    intros k v Hin. rewrite Forall_forall in Hall.
    destruct (Hall _ Hin) as [Ht Hid]. simpl in Ht, Hid.
    split; [|exact Hid]. intros Hnil. rewrite Hnil in Ht. discriminate.
  - intros part text k v rest d. apply parse_parts_empty_label.
Qed.

Lemma technical_info_keys_nonempty_witness :
  str_strip (py "Cor") <> [] /\
  @parse_parts _ toy_bs4 latin1_unicode [py " : sem rótulo"; py "Cor: Azul"] []
  = @parse_parts _ toy_bs4 latin1_unicode [py "Cor: Azul"] [].
Proof.
  destruct (@technical_info_keys_nonempty shop_web _ toy_bs4 latin1_unicode
              (py "/produto/lona")
              {| url := py "/produto/lona"; title := Some (py "Lona Front");
                 short_description := None; categories := [py "Lonas"]; tags := [];
                 advantages := [py "A"; py "B"];
                 technical_info := [(py "Cor", py "Vermelho"); (py "Tamanho", py "M")] |})
    as [Hkeys Hdrop].
  - vm_compute. reflexivity.
  - split.
    + apply (Hkeys (py "Cor") (py "Vermelho")). left.
    + apply (Hdrop _ (py ": sem rótulo") (py "") (py " sem rótulo"));
        vm_compute; reflexivity.
Defined.

(** * Further properties *)

(** ** The crawl frontier, turn by turn *)

Section FrontierTurns.
Context `{Web}.

Lemma after_succ (n : nat) (start_urls : list pystr) :
  after (S n) start_urls = step (after n start_urls).
Proof. reflexivity. Qed.

(** One turn only adds to the discovered set, the visited set and the
    record of calls. *)
Lemma step_grows (s : CrawlState) :
  product_urls s ⊆ product_urls (step s) /\
  visited_listing_pages s ⊆ visited_listing_pages (step s) /\
  exists more, trace (step s) = trace s ++ more.
Proof.
  unfold step. destruct (queue s) as [|u q] eqn:Hq.
  - repeat split; try reflexivity. exists []. rewrite app_nil_r. reflexivity.
  - destruct (decide (u ∈ visited_listing_pages s)) as [Hu|Hu].
    + rewrite loop_body_visited by exact Hu. simpl.
      repeat split; try reflexivity. exists []. rewrite app_nil_r. reflexivity.
    + rewrite loop_body_fresh by exact Hu. simpl.
      repeat split; [apply union_subseteq_r|apply union_subseteq_r|].
      eexists. reflexivity.
Qed.

Lemma after_grows (start_urls : list pystr) (n m : nat) :
  (n <= m)%nat ->
  product_urls (after n start_urls) ⊆ product_urls (after m start_urls) /\
  visited_listing_pages (after n start_urls)
    ⊆ visited_listing_pages (after m start_urls) /\
  exists more, trace (after m start_urls) = trace (after n start_urls) ++ more.
Proof.
  induction 1 as [|m Hle (IHp & IHv & more & IHt)].
  - repeat split; try reflexivity. exists []. rewrite app_nil_r. reflexivity.
  - rewrite after_succ.
    destruct (step_grows (after m start_urls)) as (Hp & Hv & more' & Ht).
    repeat split.
    + etransitivity; eassumption.
    + etransitivity; eassumption.
    + exists (more ++ more'). rewrite Ht, IHt, app_assoc. reflexivity.
Qed.

Lemma single_initial (start_urls : list pystr) :
  (length start_urls <= 1)%nat -> single_inv start_urls (initial start_urls).
Proof.
  intros Hlen. split; unfold enqueued; simpl.
  - exact Hlen.
  - rewrite app_nil_r. destruct start_urls as [|a [|b l]]; simpl in Hlen; try lia.
    + constructor.
    + apply NoDup_singleton.
  - intros u. rewrite app_nil_r. auto.
  - intros u _. set_solver.
Qed.

Lemma single_step (start_urls : list pystr) (s : CrawlState) :
  single_inv start_urls s -> single_inv start_urls (step s).
Proof.
  intros [Hlen Hnd Hseen Hfresh]. unfold step.
  destruct (queue s) as [|u q] eqn:Hq.
  - split; rewrite ?Hq; auto.
  - assert (q = []) as -> by (destruct q; [reflexivity|simpl in Hlen; lia]).
    assert (u ∉ visited_listing_pages s) as Hu by (apply Hfresh; left).
    rewrite loop_body_fresh by exact Hu. cbv zeta.
    set (visited := {[u]} ∪ visited_listing_pages s).
    assert (forall w, w ∈ enqueued start_urls s -> w ∈ visited) as Hold.
    { intros w Hw. destruct (Hseen w Hw) as [Hv|Hin].
      - apply elem_of_union_r, Hv.
      - apply list_elem_of_singleton in Hin as ->.
        apply elem_of_union_l, elem_of_singleton. reflexivity. }
    assert (length (next_appends u visited) <= 1)%nat as Hone.
    { unfold next_appends. destruct (page_next u); [|simpl; lia].
      destruct (decide _); simpl; lia. }
    unfold visited in *. clear visited.
    assert (forall tr, appended (tr ++ EvFetch u ::
               map EvAppend (next_appends u ({[u]} ∪ visited_listing_pages s)))
             = appended tr ++ next_appends u ({[u]} ∪ visited_listing_pages s))
      as Happ.
    { intros tr. rewrite appended_app. f_equal.
      change (appended (EvFetch u :: ?l)) with (appended l).
      apply appended_appends. }
    split; unfold enqueued in *; simpl; rewrite ?Happ, ?app_assoc.
    + exact Hone.
    + apply NoDup_app. split; [exact Hnd|]. split.
      * intros w Hw Hin. apply elem_of_next_appends in Hin as [_ Hn].
        apply Hn, Hold, Hw.
      * destruct (next_appends u _) as [|a [|b l]]; simpl in Hone; try lia.
        -- constructor.
        -- apply NoDup_singleton.
    + intros w. rewrite elem_of_app.
      intros [Hw|Hw]; [left; apply Hold, Hw|right; exact Hw].
    + intros w Hw. apply elem_of_next_appends in Hw as [_ Hn]. exact Hn.
Qed.

Lemma single_after (start_urls : list pystr) (n : nat) :
  (length start_urls <= 1)%nat -> single_inv start_urls (after n start_urls).
Proof.
  intros Hlen. unfold after. induction n as [|n IH]; simpl.
  - apply single_initial, Hlen.
  - apply single_step, IH.
Qed.

(** Reachability depends on the start URLs as a set only. *)
Lemma reachable_same_set (s1 s2 : list pystr) (u : pystr) :
  (forall x, x ∈ s1 -> x ∈ s2) -> reachable s1 u -> reachable s2 u.
Proof.
  intros Hsub Hr. induction Hr as [u Hu|u v _ IH Hn].
  - apply reach_start, Hsub, Hu.
  - eapply reach_next; eassumption.
Qed.

(** The discovered set when the loop has ended. *)
Lemma final_products (start_urls : list pystr) (fuel : nat) (s : CrawlState) (x : pystr) :
  while_queue fuel (initial start_urls) = Some s ->
  x ∈ product_urls s <->
  exists u, reachable start_urls u /\ x ∈ page_products u.
Proof.
  intros Hw. apply while_queue_inv in Hw as [Hinv Hq].
  rewrite (inv_products _ _ Hinv).
  split; intros (u & Hu & Hx); exists u; split; auto;
    apply (final_visited_reachable start_urls s Hinv Hq); exact Hu.
Qed.

(** A queue of pages that all fail to load is emptied in as many turns as
    it has entries, and nothing is discovered or appended. *)
Lemma while_queue_all_fail (fuel : nat) (s : CrawlState) :
  (forall u, u ∈ queue s -> fetch_html u = None) ->
  (length (queue s) <= fuel)%nat ->
  exists s',
    while_queue fuel s = Some s' /\
    product_urls s' = product_urls s /\
    appended (trace s') = appended (trace s).
Proof.
  revert s. induction fuel as [|fuel IH]; intros s Hfail Hlen; simpl.
  - destruct (queue s) eqn:Hq; [eauto|simpl in Hlen; lia].
  - destruct (queue s) as [|u q] eqn:Hq; [eauto|].
    assert (fetch_html u = None) as Hu by (apply Hfail; left).
    assert (product_urls (step s) = product_urls s /\
            appended (trace (step s)) = appended (trace s) /\
            queue (step s) = q) as (Hp & Ha & Hq').
    { unfold step. rewrite Hq.
      destruct (decide (u ∈ visited_listing_pages s)) as [Hv|Hv].
      - rewrite loop_body_visited by exact Hv. auto.
      - rewrite loop_body_fresh by exact Hv. simpl.
        unfold page_products, next_appends, page_next. rewrite Hu. simpl.
        rewrite appended_app. simpl. rewrite !app_nil_r.
        repeat split. set_solver. }
    destruct (IH (step s)) as (s' & Hs' & Hp' & Ha').
    + rewrite Hq'. intros w Hw. apply Hfail. right. exact Hw.
    + rewrite Hq'. simpl in Hlen. lia.
    + exists s'. split; [exact Hs'|]. split; congruence.
Qed.

End FrontierTurns.

(** X2: the discovered set and the visited set only grow from one turn of
    the loop to a later one, and the record of calls is only extended; what
    any turn has discovered is in the set the loop ends with. *)
Theorem discovered_only_grows `{Web} (start_urls : list pystr) (n m : nat) :
  (n <= m)%nat ->
  product_urls (after n start_urls) ⊆ product_urls (after m start_urls) /\
  visited_listing_pages (after n start_urls)
    ⊆ visited_listing_pages (after m start_urls) /\
  (exists more, trace (after m start_urls) = trace (after n start_urls) ++ more) /\
  (forall fuel s,
     while_queue fuel (initial start_urls) = Some s ->
     product_urls (after n start_urls) ⊆ product_urls s).
Proof.
  intros Hle. destruct (after_grows start_urls n m Hle) as (Hp & Hv & Ht).
  repeat split; try assumption.
  intros fuel s Hw. apply while_queue_after in Hw as (k & _ & -> & Hq).
  destruct (Nat.le_ge_cases n k) as [Hnk|Hkn].
  - apply (after_grows start_urls n k Hnk).
  - assert (after n start_urls = after k start_urls) as ->; [|reflexivity].
    clear Hle Hp Hv Ht. induction Hkn as [|n Hkn IH]; [reflexivity|].
    rewrite after_succ, IH. apply step_nil, Hq.
Qed.

Lemma discovered_only_grows_witness :
  @product_urls (@after cycle_site 1 [py "/p1"])
    ⊆ @product_urls (@after cycle_site 2 [py "/p1"]).
Proof.
  apply (@discovered_only_grows cycle_site [py "/p1"] 1 2). lia.
Defined.

(** X3: the traversal never requests a page that is not reachable: every
    URL passed to [fetch_html], and every URL put into the queue, is a
    start URL or the next-page link of a page fetched before. *)
Theorem only_reachable_pages_fetched `{Web} (start_urls : list pystr) (n : nat) (u : pystr) :
  (u ∈ fetched (trace (after n start_urls)) -> reachable start_urls u) /\
  (u ∈ queue (after n start_urls) -> reachable start_urls u) /\
  (u ∈ appended (trace (after n start_urls)) ->
   exists v, v ∈ fetched (trace (after n start_urls)) /\ page_next v = Some u).
Proof.
  pose proof (after_inv start_urls n) as Hinv. split; [|split].
  - intros Hu. apply (inv_reach _ _ Hinv). left.
    apply (inv_fetched _ _ Hinv), Hu.
  - intros Hu. apply (inv_reach _ _ Hinv). right. exact Hu.
  - clear Hinv. induction n as [|n IH].
    + intros Hu. inversion Hu.
    + rewrite after_succ. unfold step.
      destruct (queue (after n start_urls)) as [|w q] eqn:Hq; [exact IH|].
      destruct (decide (w ∈ visited_listing_pages (after n start_urls))) as [Hw|Hw].
      * rewrite loop_body_visited by exact Hw. simpl. exact IH.
      * rewrite loop_body_fresh by exact Hw. simpl.
        rewrite appended_app, fetched_app. simpl.
        fold (appended (map EvAppend
                (next_appends w ({[w]} ∪ visited_listing_pages (after n start_urls))))).
        rewrite appended_appends, fetched_appends, elem_of_app.
        intros [Hu|Hu].
        -- destruct (IH Hu) as (v & Hv & Hn). exists v.
           split; [apply elem_of_app; left; exact Hv|exact Hn].
        -- apply elem_of_next_appends in Hu as [Hn _]. exists w.
           split; [apply elem_of_app; right; left|exact Hn].
Qed.

(** X4: with at most one start URL, as in the configured [start_urls],
    every URL is put into the frontier at most once and the queue never
    holds more than one URL. *)
Theorem single_start_enqueued_once `{Web} (start_urls : list pystr) (n : nat) :
  (length start_urls <= 1)%nat ->
  NoDup (enqueued start_urls (after n start_urls)) /\
  (length (queue (after n start_urls)) <= 1)%nat.
Proof.
  intros Hlen. destruct (single_after start_urls n Hlen) as [Hq Hnd _ _].
  split; assumption.
Qed.

Lemma single_start_enqueued_once_witness :
  NoDup (@enqueued [py "/p1"] (@after cycle_site 3 [py "/p1"])) /\
  (length (@queue (@after cycle_site 3 [py "/p1"])) <= 1)%nat.
Proof.
  apply (@single_start_enqueued_once cycle_site [py "/p1"] 3). simpl. lia.
Defined.

(** X5: the result depends on the start URLs as a set: two start lists
    with the same elements, in any order and with any repeats, give the
    same list of product URLs. *)
Theorem start_urls_order_irrelevant `{Web} (starts1 starts2 : list pystr)
    (fuel1 fuel2 : nat) (r1 r2 : list pystr) :
  (forall u, u ∈ starts1 <-> u ∈ starts2) ->
  discover_product_urls fuel1 starts1 = Some r1 ->
  discover_product_urls fuel2 starts2 = Some r2 ->
  r1 = r2.
Proof.
  intros Hsame. unfold discover_product_urls.
  destruct (while_queue fuel1 (initial starts1)) as [s1|] eqn:H1; [|discriminate].
  destruct (while_queue fuel2 (initial starts2)) as [s2|] eqn:H2; [|discriminate].
  intros [= <-] [= <-].
  assert (product_urls s1 = product_urls s2) as ->; [|reflexivity].
  apply set_eq. intros x.
  rewrite (final_products _ _ _ x H1), (final_products _ _ _ x H2).
  split; intros (u & Hu & Hx); exists u; split; auto;
    eapply reachable_same_set; try exact Hu; intros w; apply Hsame.
Qed.

Lemma start_urls_order_irrelevant_witness :
  @discover_product_urls fan_in_site 5 [py "/x"; py "/y"]
  = @discover_product_urls fan_in_site 6 [py "/y"; py "/x"; py "/y"].
Proof.
  destruct (@discover_product_urls fan_in_site 5 [py "/x"; py "/y"])
    as [r1|] eqn:H1; [|vm_compute in H1; discriminate].
  destruct (@discover_product_urls fan_in_site 6 [py "/y"; py "/x"; py "/y"])
    as [r2|] eqn:H2; [|vm_compute in H2; discriminate].
  f_equal.
  eapply (@start_urls_order_irrelevant fan_in_site
            [py "/x"; py "/y"] [py "/y"; py "/x"; py "/y"] 5 6);
    [|exact H1|exact H2].
  intros u. split; intros Hu;
    repeat (apply elem_of_cons in Hu as [->|Hu]; [rewrite !elem_of_cons; auto|]);
    inversion Hu.
Defined.

(** X6: when every start URL fails to load (and so when there is no
    start URL at all), the traversal ends within as many turns as there are
    start URLs, appends nothing to the queue and returns the empty list. *)
Theorem discover_nothing_loads `{Web} (start_urls : list pystr) (fuel : nat) :
  (forall u, u ∈ start_urls -> fetch_html u = None) ->
  (length start_urls <= fuel)%nat ->
  discover_product_urls fuel start_urls = Some [] /\
  exists s, while_queue fuel (initial start_urls) = Some s /\
            appended (trace s) = [].
Proof.
  intros Hfail Hlen.
  destruct (while_queue_all_fail fuel (initial start_urls) Hfail Hlen)
    as (s & Hs & Hp & Ha).
  split; [|exists s; split; [exact Hs|exact Ha]].
  unfold discover_product_urls. rewrite Hs, Hp. simpl.
  rewrite elements_empty. reflexivity.
Qed.

Lemma discover_nothing_loads_witness :
  @discover_product_urls landing_site 2 [py "/gone"; py "/missing"] = Some [].
Proof.
  apply (@discover_nothing_loads landing_site [py "/gone"; py "/missing"] 2).
  - intros u Hu.
    repeat (apply elem_of_cons in Hu as [->|Hu]; [vm_compute; reflexivity|]).
    inversion Hu.
  - simpl. lia.
Defined.

(** ** Python dictionaries and [split] *)

Lemma dict_set_keys (key value : pystr) (d : pydict) :
  map fst (dict_set key value d)
  = if decide (key ∈ map fst d) then map fst d else map fst d ++ [key].
Proof.
  induction d as [|[k v] d IH]; simpl.
  - reflexivity.
  - destruct (decide (k = key)) as [->|Hne]; simpl.
    + rewrite decide_True by left. reflexivity.
    + rewrite IH. destruct (decide (key ∈ map fst d)) as [Hin|Hin].
      * rewrite decide_True by (right; exact Hin). reflexivity.
      * rewrite decide_False; [reflexivity|].
        intros Hc. apply elem_of_cons in Hc as [->|Hc]; contradiction.
Qed.

Lemma dict_set_keys_nodup (key value : pystr) (d : pydict) :
  NoDup (map fst d) -> NoDup (map fst (dict_set key value d)).
Proof.
  intros Hnd. rewrite dict_set_keys. destruct (decide _) as [Hin|Hin]; [exact Hnd|].
  apply NoDup_app. split; [exact Hnd|]. split; [|apply NoDup_singleton].
  intros x Hx Hx'. apply list_elem_of_singleton in Hx' as ->. contradiction.
Qed.

Lemma dict_get_set (key value k : pystr) (d : pydict) :
  dict_get k (dict_set key value d)
  = if decide (key = k) then Some value else dict_get k d.
Proof.
  induction d as [|[k' v'] d IH]; simpl.
  - destruct (decide (key = k)); reflexivity.
  - destruct (decide (k' = key)) as [->|Hne]; simpl.
    + destruct (decide (key = k)); reflexivity.
    + destruct (decide (k' = k)) as [->|Hne'].
      * rewrite decide_False by (intros ->; contradiction). reflexivity.
      * exact IH.
Qed.

Lemma set_entries_get (entries : list (pystr * pystr)) (d : pydict) (k : pystr) :
  dict_get k (set_entries entries d)
  = match last_value k entries with
    | Some v => Some v
    | None => dict_get k d
    end.
Proof.
  unfold set_entries. revert d.
  induction entries as [|[k' v'] rest IH]; intros d; simpl; [reflexivity|].
  rewrite IH. destruct (last_value k rest); [reflexivity|].
  rewrite dict_get_set. simpl. destruct (decide (k' = k)); reflexivity.
Qed.

Lemma set_entries_keys (entries : list (pystr * pystr)) (d : pydict) :
  map fst (set_entries entries d)
  = fold_left (fun acc x => if decide (x ∈ acc) then acc else acc ++ [x])
      (map fst entries) (map fst d).
Proof.
  unfold set_entries. revert d.
  induction entries as [|[k v] rest IH]; intros d; simpl; [reflexivity|].
  rewrite IH, dict_set_keys. reflexivity.
Qed.

Lemma set_entries_keys_nodup (entries : list (pystr * pystr)) (d : pydict) :
  NoDup (map fst d) -> NoDup (map fst (set_entries entries d)).
Proof.
  unfold set_entries. revert d.
  induction entries as [|[k v] rest IH]; intros d Hd; simpl; [exact Hd|].
  apply IH, dict_set_keys_nodup, Hd.
Qed.

Lemma str_startswith_app (s p : pystr) :
  str_startswith s p = true -> s = p ++ skipn (length p) s.
Proof.
  revert s. induction p as [|a p IH]; intros s; simpl; [reflexivity|].
  destruct s as [|c s]; [discriminate|].
  intros Hs. apply andb_prop in Hs as [Hac Hs].
  apply N.eqb_eq in Hac as ->. simpl. f_equal. apply IH, Hs.
Qed.

(** [s.split(sep, 1)] on a string that contains [sep] gives two pieces,
    the text before and after an occurrence of [sep]. *)
Lemma str_split1_aux_found (sep cur s : pystr) :
  sep <> [] -> str_contains sep s = true ->
  exists k v, str_split1_aux sep cur s = [rev cur ++ k; v] /\ s = k ++ sep ++ v.
Proof.
  intros Hsep. revert cur. induction s as [|c s IH]; intros cur Hc.
  - destruct sep; [contradiction|discriminate].
  - change (str_split1_aux sep cur (c :: s))
      with (if str_startswith (c :: s) sep
            then [rev cur; skipn (length sep) (c :: s)]
            else str_split1_aux sep (c :: cur) s).
    change (str_contains sep (c :: s))
      with (str_startswith (c :: s) sep || str_contains sep s) in Hc.
    destruct (str_startswith (c :: s) sep) eqn:Hs.
    + exists [], (skipn (length sep) (c :: s)). rewrite app_nil_r.
      split; [reflexivity|]. apply (str_startswith_app _ _ Hs).
    + simpl in Hc. destruct (IH (c :: cur) Hc) as (k & v & Hk & Hv).
      exists (c :: k), v. split.
      * rewrite Hk. simpl. rewrite <- app_assoc. reflexivity.
      * simpl. f_equal. exact Hv.
Qed.

Lemma str_split1_found (sep s : pystr) :
  sep <> [] -> str_contains sep s = true ->
  exists k v, str_split1 sep s = [k; v] /\ s = k ++ sep ++ v.
Proof.
  intros Hsep Hc. destruct (str_split1_aux_found sep [] s Hsep Hc) as (k & v & H1 & H2).
  exists k, v. split; assumption.
Qed.

(** ** The extractor, field by field *)

Section ExtractionFields.
Context `{Web} `{Bs4 Tag} `{Unicode}.

(** The loop over the lines never raises on its own: when the parser
    returns a text for each non-empty line, the mapping is built by
    assigning the lines' entries in order. *)
Lemma parse_parts_entries (parts texts : list pystr) (d : pydict) :
  Forall2 (fun part text => get_text (BeautifulSoup part) (py " ") = Ok text)
    (filter (fun part => truthy part = true) parts) texts ->
  parse_parts parts d = Ok (set_entries (omap line_entry texts) d).
Proof.
  revert texts d. induction parts as [|part rest IH]; intros texts d Hall.
  - inversion Hall; subst. reflexivity.
  - destruct (truthy part) eqn:Hp.
    + rewrite filter_cons_True in Hall by exact Hp.
      inversion Hall as [|? text ? texts' Ht Hrest]; subst.
      cbn [parse_parts]. rewrite Hp. cbn [negb]. rewrite Ht.
      cbn [mbind result_bind].
      change (omap line_entry (text :: texts'))
        with (match line_entry text with
              | Some e => e :: omap line_entry texts'
              | None => omap line_entry texts'
              end).
      unfold line_entry at 1.
      destruct (truthy text); cbn [negb]; [|apply IH, Hrest].
      destruct (str_startswith (str_lower text) (py "informações técnicas"));
        [apply IH, Hrest|].
      destruct (str_contains (py ":") text) eqn:Hc; [|apply IH, Hrest].
      destruct (str_split1_found (py ":") text) as (k & v & -> & _);
        [discriminate|exact Hc|].
      destruct (truthy (str_strip k)); [|apply IH, Hrest].
      unfold set_entries. simpl. apply IH, Hrest.
    + rewrite filter_cons_False in Hall by (rewrite Hp; discriminate).
      cbn [parse_parts]. rewrite Hp. cbn [negb]. apply IH, Hall.
Qed.

(** A line on which the parser raises makes the whole loop raise. *)
Lemma parse_parts_raises (parts : list pystr) (bad : pystr) (d : pydict) :
  bad ∈ parts -> truthy bad = true ->
  get_text (BeautifulSoup bad) (py " ") = Raise ->
  parse_parts parts d = Raise.
Proof.
  intros Hin Hb Hr. revert d.
  induction parts as [|part rest IH]; intros d; [inversion Hin|].
  apply elem_of_cons in Hin as [<-|Hin].
  - cbn [parse_parts]. rewrite Hb. cbn [negb]. rewrite Hr. reflexivity.
  - specialize (IH Hin). cbn [parse_parts].
    destruct (truthy part); cbn [negb]; [|apply IH].
    destruct (get_text (BeautifulSoup part) (py " ")) as [text|];
      cbn [mbind result_bind]; [|reflexivity].
    destruct (truthy text); cbn [negb]; [|apply IH].
    destruct (str_startswith _ _); [apply IH|].
    destruct (str_contains _ _); [|apply IH].
    destruct (str_split1 _ _) as [|k [|v [|? ?]]]; try reflexivity.
    destruct (truthy (str_strip k)); apply IH.
Qed.

Lemma anchor_texts_clean (anchors : list Tag) (out : list pystr) :
  anchor_texts anchors = Ok out -> Forall clean_text out.
Proof.
  revert out. induction anchors as [|a rest IH]; intros out; simpl.
  - intros [= <-]. constructor.
  - destruct (get_text a (py "")) as [t|]; simpl; [|discriminate].
    destruct (anchor_texts rest) as [out'|]; simpl; [|discriminate].
    intros [= <-]. specialize (IH out' eq_refl).
    destruct (truthy (str_strip t)) eqn:Ht; [|exact IH].
    constructor; [|exact IH]. split; [|apply str_strip_idem].
    intros Hnil. rewrite Hnil in Ht. discriminate.
Qed.

Lemma span_anchor_texts_clean (soup : Tag) (sel : string) :
  Forall clean_text (guarded (span_anchor_texts soup sel) []).
Proof.
  unfold span_anchor_texts.
  destruct (select_one soup sel) as [[span|]|]; simpl; try constructor.
  destruct (select span "a") as [anchors|]; simpl; [|constructor].
  destruct (anchor_texts anchors) as [out|] eqn:E; simpl; [|constructor].
  apply (anchor_texts_clean _ _ E).
Qed.

Lemma li_texts_nonempty (lis : list Tag) (out : list pystr) :
  li_texts lis = Ok out -> Forall (fun t => t <> []) out.
Proof.
  revert out. induction lis as [|li rest IH]; intros out; simpl.
  - intros [= <-]. constructor.
  - destruct (get_text li (py " ")) as [t|]; simpl; [|discriminate].
    destruct (li_texts rest) as [out'|]; simpl; [|discriminate].
    intros [= <-]. specialize (IH out' eq_refl).
    destruct t as [|c t]; simpl; [exact IH|].
    constructor; [discriminate|exact IH].
Qed.

Lemma advantages_alone_nonempty (soup : Tag) :
  Forall (fun t => t <> []) (advantages_alone soup).
Proof.
  unfold advantages_alone.
  destruct (select_one soup "div#tab-description") as [[tab|]|]; simpl;
    try constructor.
  destruct (select tab "h2") as [h2_list|]; simpl; [|constructor].
  destruct (find_target_h2 h2_list) as [[h2|]|]; simpl; try constructor.
  destruct (find_next h2 "ul") as [[ul|]|]; simpl; try constructor.
  destruct (select ul "li") as [lis|]; simpl; [|constructor].
  destruct (li_texts lis) as [out|] eqn:E; simpl; [|constructor].
  apply (li_texts_nonempty _ _ E).
Qed.

End ExtractionFields.

(** X7: the technical-information lines follow the last-wins policy in
    general. When the parser returns a text for each non-empty line, the
    loop does not raise; each key of the mapping holds the value of the
    last line with that key; the keys are distinct and stand in the order
    of their first lines. *)
Theorem technical_info_last_wins `{Bs4 Tag} `{Unicode}
    (parts texts : list pystr) :
  Forall2 (fun part text => get_text (BeautifulSoup part) (py " ") = Ok text)
    (filter (fun part => truthy part = true) parts) texts ->
  exists d,
    parse_parts parts [] = Ok d /\
    (forall key, dict_get key d = last_value key (omap line_entry texts)) /\
    map fst d = CsvSku.fromkeys (map fst (omap line_entry texts)) /\
    NoDup (map fst d).
Proof.
  intros Hall. exists (set_entries (omap line_entry texts) []).
  split; [apply parse_parts_entries, Hall|]. split; [|split].
  - intros key. rewrite set_entries_get.
    destruct (last_value key _); reflexivity.
  - apply set_entries_keys.
  - apply set_entries_keys_nodup. constructor.
Qed.

Lemma technical_info_last_wins_witness :
  exists d,
    @parse_parts _ toy_bs4 latin1_unicode
      [py "Cor: Azul"; py ""; py "sem dois pontos"; py "Peso : 2 kg"; py "Cor: Verde"] []
    = Ok d /\
    dict_get (py "Cor") d = Some (py "Verde") /\
    map fst d = [py "Cor"; py "Peso"].
Proof.
  destruct (@technical_info_last_wins _ toy_bs4 latin1_unicode
              [py "Cor: Azul"; py ""; py "sem dois pontos"; py "Peso : 2 kg"; py "Cor: Verde"]
              [py "Cor: Azul"; py "sem dois pontos"; py "Peso : 2 kg"; py "Cor: Verde"])
    as (d & Hd & Hget & Hkeys & _).
  - vm_compute. repeat constructor.
  - exists d. split; [exact Hd|]. split.
    + rewrite Hget. vm_compute. reflexivity.
    + rewrite Hkeys. vm_compute. reflexivity.
Defined.

(** X8: the technical-information mapping is all or nothing. When the
    parser raises on one non-empty line of the paragraph, the field is the
    empty mapping: the entries of the lines before it are discarded. *)
Theorem technical_info_all_or_nothing `{Web} `{Bs4 Tag} `{Unicode}
    (product_url html raw bad : pystr) (tab p : Tag) (p_list : list Tag) :
  fetch_html product_url = Some html ->
  select_one (BeautifulSoup html) "div#tab-description" = Ok (Some tab) ->
  select tab "p" = Ok p_list ->
  find_target_p p_list = Ok (Some p) ->
  decode_contents p = Ok raw ->
  bad ∈ map str_strip
          (str_split (py "<br>")
             (str_replace (py "<br />") (py "<br>")
                (str_replace (py "<br/>") (py "<br>") raw))) ->
  truthy bad = true ->
  get_text (BeautifulSoup bad) (py " ") = Raise ->
  exists r, scrape_product_details product_url = Ok r /\ technical_info r = [].
Proof.
  intros Hf Htab Hp Hfind Hraw Hin Hb Hr.
  eexists. split; [apply (scrape_fetched _ _ Hf)|]. simpl.
  unfold technical_info_alone. rewrite Htab. cbn [mbind result_bind].
  unfold technical_info_of. rewrite Hp. cbn [mbind result_bind].
  rewrite Hfind. cbn [mbind result_bind]. rewrite Hraw. cbn [mbind result_bind].
  cbv zeta. rewrite (parse_parts_raises _ bad [] Hin Hb Hr). reflexivity.
Qed.

Lemma technical_info_all_or_nothing_witness :
  exists r,
    @scrape_product_details shop_web _ fragile_bs4 latin1_unicode (py "/produto/lona") = Ok r /\
    technical_info r = [].
Proof.
  apply (@technical_info_all_or_nothing shop_web _ fragile_bs4 latin1_unicode
           (py "/produto/lona") (py "LONA")
           (py "<strong>Informações Técnicas:</strong> <br/>Cor: Azul<br/>Tamanho: M<br/>Cor: Vermelho")
           (py "Tamanho: M") (El "tab") (El "p-tech") [El "p-intro"; El "p-tech"]);
    try (vm_compute; reflexivity).
  vm_compute. right. right. left.
Defined.

(** X9: the list fields of a record hold no empty entries: every category
    and every tag is non-empty with nothing left to trim, and every
    advantage is non-empty. *)
Theorem list_fields_clean `{Web} `{Bs4 Tag} `{Unicode}
    (product_url : pystr) (r : ProductRecord) :
  scrape_product_details product_url = Ok r ->
  Forall clean_text (categories r) /\
  Forall clean_text (tags r) /\
  Forall (fun t => t <> []) (advantages r).
Proof.
  intros Hs. destruct (fetch_html product_url) as [html|] eqn:Hf.
  - rewrite (scrape_fetched _ _ Hf) in Hs. injection Hs as <-. simpl.
    split; [apply span_anchor_texts_clean|].
    split; [apply span_anchor_texts_clean|apply advantages_alone_nonempty].
  - rewrite (scrape_not_fetched _ Hf) in Hs. injection Hs as <-. simpl.
    repeat split; constructor.
Qed.

Lemma list_fields_clean_witness :
  Forall clean_text [py "Lonas"] /\ Forall clean_text (@nil pystr) /\
  Forall (fun t => t <> []) [py "A"; py "B"].
Proof.
  apply (@list_fields_clean shop_web _ toy_bs4 latin1_unicode (py "/produto/lona")
           {| url := py "/produto/lona"; title := Some (py "Lona Front");
              short_description := None; categories := [py "Lonas"]; tags := [];
              advantages := [py "A"; py "B"];
              technical_info := [(py "Cor", py "Vermelho"); (py "Tamanho", py "M")] |}).
  vm_compute. reflexivity.
Defined.



(** ** Directory and file names of the CSV variant *)

Section SlugProofs.
Import CsvDetails.

Lemma slug_char_not_hyphen (c : N) : is_slug_char c = true -> c <> 45.
Proof. intros Hc ->. vm_compute in Hc. discriminate. Qed.

Lemma slug_char_small (c : N) : slug_char c -> c < 256.
Proof.
  unfold slug_char, is_slug_char. intros [Hc| ->]; [|lia].
  apply orb_prop in Hc as [Hc|Hc]; apply andb_prop in Hc as [_ Hc];
    apply N.leb_le in Hc; lia.
Qed.

Lemma slug_char_lower (c : N) : slug_char c -> lower_latin1 c = c.
Proof.
  unfold slug_char, is_slug_char, lower_latin1. intros Hc.
  destruct (N.leb_spec 65 c), (N.leb_spec c 90); simpl;
    destruct (N.leb_spec 192 c), (N.leb_spec c 222); simpl; try reflexivity;
    exfalso; destruct Hc as [Hc| ->]; try lia;
    apply orb_prop in Hc as [Hc|Hc]; apply andb_prop in Hc as [Hc1 Hc2];
    apply N.leb_le in Hc1, Hc2; lia.
Qed.

Lemma slug_char_not_space (c : N) : slug_char c -> isspace c = false.
Proof.
  intros Hc. pose proof (slug_char_small c Hc) as Hlt.
  unfold isspace.
  destruct Hc as [Hc| ->]; [|reflexivity].
  unfold is_slug_char in Hc.
  apply orb_prop in Hc as [Hc|Hc]; apply andb_prop in Hc as [Hc1 Hc2];
    apply N.leb_le in Hc1, Hc2;
    repeat match goal with
    | |- context [N.leb ?a ?b] => destruct (N.leb_spec a b); try lia
    | |- context [N.eqb ?a ?b] => destruct (N.eqb_spec a b); try lia
    end; reflexivity.
Qed.

Lemma sub_non_slug_chars (b : bool) (s : pystr) : Forall slug_char (sub_non_slug b s).
Proof.
  revert b. induction s as [|c s IH]; intros b; simpl; [constructor|].
  destruct (is_slug_char c) eqn:Hc.
  - constructor; [left; exact Hc|apply IH].
  - destruct b; [apply IH|]. constructor; [right; reflexivity|apply IH].
Qed.

Lemma sub_non_slug_no_double (b : bool) (s : pystr) :
  no_double_hyphen (sub_non_slug b s) /\
  (b = true -> head (sub_non_slug b s) <> Some 45).
Proof.
  revert b. induction s as [|c s IH]; intros b; simpl.
  - split; [exact I|discriminate].
  - destruct (is_slug_char c) eqn:Hc.
    + simpl. split.
      * split; [|apply IH]. intros ->. vm_compute in Hc. discriminate.
      * intros _ [= ->]. vm_compute in Hc. discriminate.
    + destruct b; [apply IH|]. simpl. split; [|discriminate].
      split; [|apply IH]. intros _. apply IH. reflexivity.
Qed.

Lemma no_double_app_l (a b : pystr) : no_double_hyphen (a ++ b) -> no_double_hyphen a.
Proof.
  induction a as [|c a IH]; simpl; [trivial|]. intros [Hc Hr]. split; [|auto].
  intros Hc45. specialize (Hc Hc45). destruct a; [discriminate|exact Hc].
Qed.

Lemma no_double_app_r (a b : pystr) : no_double_hyphen (a ++ b) -> no_double_hyphen b.
Proof. induction a as [|c a IH]; simpl; [trivial|]. intros [_ Hr]. auto. Qed.

Lemma lstrip_char_suffix (ch : N) (s : pystr) : exists p, s = p ++ lstrip_char ch s.
Proof.
  induction s as [|c s (p & IH)]; simpl.
  - exists []. reflexivity.
  - destruct (c =? ch).
    + exists (c :: p). simpl. f_equal. exact IH.
    + exists []. reflexivity.
Qed.

Lemma lstrip_char_head (ch : N) (s : pystr) : head (lstrip_char ch s) <> Some ch.
Proof.
  induction s as [|c s IH]; simpl; [discriminate|].
  destruct (N.eqb_spec c ch); [exact IH|]. simpl. congruence.
Qed.

Lemma lstrip_char_id (ch : N) (s : pystr) : head s <> Some ch -> lstrip_char ch s = s.
Proof.
  destruct s as [|c s]; simpl; [reflexivity|]. intros Hc.
  destruct (N.eqb_spec c ch); [congruence|reflexivity].
Qed.

Lemma rstrip_char_prefix (ch : N) (s : pystr) : exists t, s = rstrip_char ch s ++ t.
Proof.
  induction s as [|c s (t & IH)]; simpl.
  - exists []. reflexivity.
  - destruct (rstrip_char ch s) as [|r rs] eqn:E.
    + destruct (c =? ch).
      * exists (c :: s). reflexivity.
      * exists t. simpl in IH. simpl. f_equal. exact IH.
    + exists t. simpl. f_equal. exact IH.
Qed.

Lemma rstrip_char_last (ch : N) (s : pystr) : last (rstrip_char ch s) <> Some ch.
Proof.
  induction s as [|c s IH]; simpl; [discriminate|].
  destruct (rstrip_char ch s) as [|r rs] eqn:E.
  - destruct (N.eqb_spec c ch); simpl; [discriminate|congruence].
  - exact IH.
Qed.

Lemma rstrip_char_id (ch : N) (s : pystr) : last s <> Some ch -> rstrip_char ch s = s.
Proof.
  induction s as [|c s IH]; simpl; [reflexivity|].
  destruct s as [|c2 s].
  - simpl. intros Hc. destruct (N.eqb_spec c ch); [congruence|reflexivity].
  - intros Hl. rewrite IH by exact Hl. reflexivity.
Qed.

Lemma last_suffix (p s : pystr) (ch : N) :
  last (p ++ s) <> Some ch -> last s <> Some ch.
Proof.
  destruct s as [|c s] using rev_ind; [discriminate|].
  rewrite app_assoc, !last_snoc. trivial.
Qed.

Lemma head_prefix (s t : pystr) (ch : N) :
  head (s ++ t) <> Some ch -> head s <> Some ch.
Proof. destruct s; simpl; [discriminate|trivial]. Qed.

(** Stripping hyphens from a string of slug characters without a double
    hyphen gives a slug. *)
Lemma strip_char_slug (s : pystr) :
  Forall slug_char s -> no_double_hyphen s -> is_slug (strip_char 45 s).
Proof.
  intros Hall Hnd. unfold strip_char.
  destruct (rstrip_char_prefix 45 s) as (t & Ht).
  destruct (lstrip_char_suffix 45 (rstrip_char 45 s)) as (p & Hp).
  assert (Forall slug_char (rstrip_char 45 s)) as Hall'.
  { rewrite Ht in Hall. apply Forall_app in Hall as [Ha _]. exact Ha. }
  assert (no_double_hyphen (rstrip_char 45 s)) as Hnd'.
  { rewrite Ht in Hnd. apply (no_double_app_l _ _ Hnd). }
  repeat split.
  - rewrite Hp in Hall'. apply Forall_app in Hall' as [_ Ha]. exact Ha.
  - rewrite Hp in Hnd'. apply (no_double_app_r _ _ Hnd').
  - apply lstrip_char_head.
  - apply (last_suffix p). rewrite <- Hp. apply rstrip_char_last.
Qed.

Lemma sub_non_slug_id (b : bool) (s : pystr) :
  Forall slug_char s -> no_double_hyphen s ->
  (b = true -> head s <> Some 45) ->
  sub_non_slug b s = s.
Proof.
  intros Hall. revert b. induction Hall as [|c s Hc Hall IH]; intros b Hnd Hb; simpl.
  - reflexivity.
  - destruct Hnd as [Hc45 Hnd]. destruct (is_slug_char c) eqn:E.
    + f_equal. apply IH; [exact Hnd|discriminate].
    + destruct Hc as [Hc| ->]; [congruence|].
      destruct b; [exfalso; apply Hb; reflexivity|].
      f_equal. apply IH; [exact Hnd|]. intros _. apply Hc45. reflexivity.
Qed.

Context `{Unicode}.

Lemma slug_lower (s : pystr) : Forall slug_char s -> str_lower s = s.
Proof.
  intros Hall. rewrite str_lower_latin1.
  - induction Hall as [|c s Hc _ IH]; simpl; [reflexivity|].
    rewrite (slug_char_lower c Hc), IH. reflexivity.
  - apply (Forall_impl _ _ _ Hall). intros c. apply slug_char_small.
Qed.

Lemma slug_strip (s : pystr) : Forall slug_char s -> str_strip s = s.
Proof.
  intros Hall.
  assert (forall t : pystr, Forall slug_char t -> no_lead t) as Hlead.
  { intros [|c t] Ht; simpl; [exact I|].
    inversion Ht; subst. apply slug_char_not_space. assumption. }
  unfold str_strip, str_rstrip.
  rewrite (str_lstrip_id (rev s)) by (apply Hlead, Forall_rev, Hall).
  rewrite rev_involutive. apply str_lstrip_id, Hlead, Hall.
Qed.

Context `{Libs}.

Lemma slugify_is_slug (value : pystr) : is_slug (_slugify value).
Proof.
  unfold _slugify. apply strip_char_slug.
  - apply sub_non_slug_chars.
  - apply sub_non_slug_no_double.
Qed.

Lemma slugify_slug (s : pystr) : is_slug s -> _slugify s = s.
Proof.
  intros (Hall & Hnd & Hh & Hl). unfold _slugify, strip_char.
  rewrite (slug_strip s Hall), (slug_lower s Hall).
  rewrite (sub_non_slug_id false s Hall Hnd) by discriminate.
  rewrite (rstrip_char_id 45 s Hl). apply lstrip_char_id, Hh.
Qed.

End SlugProofs.

(** X11: a directory name made by [_slugify] holds only lower-case ASCII
    letters, digits and hyphens, has no two hyphens in a row and none at
    either end; so it holds no path separator and no dot. The folder a
    product's images go to is such a name and is never empty. *)
Theorem slugify_shape `{Unicode} `{CsvDetails.Libs}
    (value product_name product_url : pystr) :
  CsvDetails.is_slug (CsvDetails._slugify value) /\
  CsvDetails.is_slug (CsvDetails.folder_name product_name product_url) /\
  CsvDetails.folder_name product_name product_url <> [] /\
  (47 ∉ CsvDetails.folder_name product_name product_url) /\
  (46 ∉ CsvDetails.folder_name product_name product_url).
Proof.
  assert (CsvDetails.is_slug (CsvDetails.folder_name product_name product_url)
          /\ CsvDetails.folder_name product_name product_url <> []) as [Hs Hne].
  { unfold CsvDetails.folder_name. cbv zeta.
    destruct (truthy (CsvDetails._slugify _)) eqn:Ht.
    - split; [apply slugify_is_slug|]. intros Hnil. rewrite Hnil in Ht. discriminate.
    - split; [|vm_compute; discriminate].
      split; [|split; [|split]].
      + vm_compute. repeat constructor.
      + vm_compute. repeat split; discriminate.
      + vm_compute. discriminate.
      + vm_compute. discriminate. }
  split; [apply slugify_is_slug|]. split; [exact Hs|]. split; [exact Hne|].
  destruct Hs as (Hall & _). rewrite Forall_forall in Hall.
  split; intros Hin; apply Hall in Hin as [Hc|Hc]; vm_compute in Hc; discriminate.
Qed.

(** X12: [_slugify] is idempotent: a name that is already a slug is
    returned unchanged, so slugging a slug again changes nothing. *)
Theorem slugify_idempotent `{Unicode} `{CsvDetails.Libs} (value : pystr) :
  CsvDetails._slugify (CsvDetails._slugify value) = CsvDetails._slugify value.
Proof. apply slugify_slug, slugify_is_slug. Qed.

Section FileProofs.
Import CsvDetails.
Context `{Unicode} `{Libs} `{FileSystem Disk}.

Lemma str_contains_char (ch : N) (s : pystr) :
  str_contains [ch] s = true <-> ch ∈ s.
Proof.
  induction s as [|c s IH].
  - simpl. split; [discriminate|intros Hin; inversion Hin].
  - cbn [str_contains str_startswith].
    replace (str_startswith s []) with true by (destruct s; reflexivity).
    rewrite orb_true_iff, andb_true_r, N.eqb_eq, IH, elem_of_cons. reflexivity.
Qed.

Lemma safe_char_b (c : N) :
  is_word c || (c =? 46) || (c =? 45) = true -> safe_char c.
Proof.
  intros Hc. apply orb_prop in Hc as [Hc|Hc]; [apply orb_prop in Hc as [Hc|Hc]|].
  - left. exact Hc.
  - right. left. apply N.eqb_eq, Hc.
  - right. right. apply N.eqb_eq, Hc.
Qed.

Lemma sub_unsafe_safe (name : pystr) : Forall safe_char (sub_unsafe name).
Proof.
  unfold sub_unsafe. apply Forall_forall. intros c Hc.
  apply list_elem_of_fmap in Hc as (c0 & -> & _).
  destruct (is_word c0) eqn:Hw; simpl; [left; exact Hw|].
  destruct (N.eqb_spec c0 46) as [->|]; simpl; [right; left; reflexivity|].
  destruct (N.eqb_spec c0 45) as [->|]; simpl; [right; right; reflexivity|].
  left. reflexivity.
Qed.

Lemma sub_unsafe_dot (name : pystr) : 46 ∈ name -> 46 ∈ sub_unsafe name.
Proof.
  intros Hin. unfold sub_unsafe. apply list_elem_of_fmap. exists 46.
  split; [|exact Hin]. destruct (is_word 46); reflexivity.
Qed.

Lemma digits_safe (d : Decimal.uint) : Forall safe_char (digits d).
Proof.
  induction d; simpl; constructor; try assumption; left; reflexivity.
Qed.

Lemma filename_facts (url : pystr) (index : nat) :
  _filename_from_url url index <> [] /\
  46 ∈ _filename_from_url url index /\
  Forall safe_char (_filename_from_url url index).
Proof.
  unfold _filename_from_url. cbv zeta.
  destruct (truthy (path_name (url_path url))) eqn:Ht; cbn [negb].
  - set (name := path_name (url_path url)) in *.
    destruct (str_contains (py ".") name) eqn:Hdot; cbn [negb].
    + split; [|split].
      * unfold sub_unsafe. destruct name; [discriminate|]. discriminate.
      * apply sub_unsafe_dot, (str_contains_char 46 name), Hdot.
      * apply sub_unsafe_safe.
    + split; [|split].
      * unfold sub_unsafe. destruct name; discriminate.
      * apply sub_unsafe_dot, elem_of_app. right. left.
      * apply sub_unsafe_safe.
  - split; [|split].
    + change (py "imagem_") with (105 :: py "magem_"). discriminate.
    + apply elem_of_app. right. apply elem_of_app. right. left.
    + apply Forall_app. split; [|apply Forall_app; split; [apply digits_safe|]];
        apply Forall_forall; intros c Hc; apply safe_char_b;
        repeat (apply elem_of_cons in Hc as [->|Hc]; [reflexivity|]);
        inversion Hc.
Qed.

(** *** Downloads *)

Lemma download_one_keeps (images_dir folder : pystr) (idx : nat) (u q : pystr)
    (st : Downloads) :
  fs_exists (disk st) q = true ->
  fs_exists (disk (download_one images_dir folder idx u st)) q = true.
Proof.
  intros Hq. unfold download_one. cbv zeta.
  fold (image_file images_dir folder idx u).
  destruct (fs_exists (disk st) (image_file images_dir folder idx u)) eqn:He;
    [exact Hq|].
  destruct (image_get u); simpl; auto using fs_open_keeps.
Qed.

Lemma download_loop_keeps (images_dir folder : pystr) (idx : nat)
    (urls : list pystr) (q : pystr) (st : Downloads) :
  fs_exists (disk st) q = true ->
  fs_exists (disk (download_loop images_dir folder idx urls st)) q = true.
Proof.
  revert idx st. induction urls as [|u urls IH]; intros idx st Hq; simpl.
  - exact Hq.
  - apply IH, download_one_keeps, Hq.
Qed.

Lemma download_one_reported (images_dir folder : pystr) (idx : nat) (u : pystr)
    (st : Downloads) :
  reported_exist images_dir folder st ->
  reported_exist images_dir folder (download_one images_dir folder idx u st).
Proof.
  intros Hst.
  assert (Forall (fun r => exists i w,
            r = image_relative images_dir folder i w /\
            fs_exists (disk (download_one images_dir folder idx u st))
              (image_file images_dir folder i w) = true) (relative_paths st)) as Hold.
  { apply (Forall_impl _ _ _ Hst). intros r (i & w & Hr & He).
    exists i, w. split; [exact Hr|]. apply download_one_keeps, He. }
  unfold reported_exist. revert Hold. unfold download_one. cbv zeta.
  fold (image_file images_dir folder idx u).
  fold (image_relative images_dir folder idx u).
  destruct (fs_exists (disk st) (image_file images_dir folder idx u)) eqn:He.
  - simpl. intros Hold. apply Forall_app. split; [exact Hold|].
    constructor; [|constructor]. exists idx, u. auto.
  - destruct (image_get u); simpl; intros Hold; try exact Hold.
    apply Forall_app. split; [exact Hold|].
    constructor; [|constructor]. exists idx, u.
    split; [reflexivity|apply fs_open_exists].
Qed.

Lemma download_loop_reported (images_dir folder : pystr) (idx : nat)
    (urls : list pystr) (st : Downloads) :
  reported_exist images_dir folder st ->
  reported_exist images_dir folder (download_loop images_dir folder idx urls st).
Proof.
  revert idx st. induction urls as [|u urls IH]; intros idx st Hst; simpl.
  - exact Hst.
  - apply IH, download_one_reported, Hst.
Qed.

Lemma download_loop_count (images_dir folder : pystr) (idx : nat)
    (urls : list pystr) (st : Downloads) :
  (length (relative_paths (download_loop images_dir folder idx urls st))
   <= length (relative_paths st) + length urls)%nat /\
  (length (requested (download_loop images_dir folder idx urls st))
   <= length (requested st) + length urls)%nat.
Proof.
  revert idx st. induction urls as [|u urls IH]; intros idx st; simpl; [lia|].
  destruct (IH (S idx) (download_one images_dir folder idx u st)) as [Hrel Hreq].
  assert ((length (relative_paths (download_one images_dir folder idx u st))
           <= S (length (relative_paths st)))%nat /\
          (length (requested (download_one images_dir folder idx u st))
           <= S (length (requested st)))%nat) as [Hrel1 Hreq1].
  { unfold download_one. cbv zeta.
    fold (image_file images_dir folder idx u).
    destruct (fs_exists (disk st) (image_file images_dir folder idx u)); simpl.
    - rewrite length_app. simpl. lia.
    - destruct (image_get u); simpl; rewrite ?length_app; simpl; lia. }
  lia.
Qed.

(** After the loop, the file of every image whose download did not fail
    before the file was opened exists. *)
Lemma download_loop_files (images_dir folder : pystr) (idx : nat)
    (urls : list pystr) (st : Downloads) (i : nat) (u : pystr) :
  urls !! i = Some u -> image_get u <> GetFails ->
  fs_exists (disk (download_loop images_dir folder idx urls st))
    (image_file images_dir folder (idx + i) u) = true.
Proof.
  revert idx st i. induction urls as [|w urls IH]; intros idx st i Hi Hg.
  - rewrite lookup_nil in Hi. discriminate.
  - destruct i as [|i]; simpl in Hi.
    + injection Hi as ->. simpl. rewrite Nat.add_0_r.
      apply download_loop_keeps. unfold download_one. cbv zeta.
      fold (image_file images_dir folder idx u).
      destruct (fs_exists (disk st) (image_file images_dir folder idx u)) eqn:He;
        [exact He|].
      destruct (image_get u); simpl; [contradiction| |]; apply fs_open_exists.
    + simpl. replace (idx + S i)%nat with (S idx + i)%nat by lia.
      apply IH; assumption.
Qed.

(** A loop over images whose files exist requests nothing and reports
    every image; an image is requested only when its file is missing. *)
Lemma download_loop_rerun (images_dir folder : pystr) (idx : nat)
    (urls : list pystr) (st : Downloads) :
  (forall i u, urls !! i = Some u -> image_get u <> GetFails ->
               fs_exists (disk st) (image_file images_dir folder (idx + i) u) = true) ->
  Forall (fun u => image_get u = GetFails) (requested st) ->
  Forall (fun u => image_get u = GetFails)
    (requested (download_loop images_dir folder idx urls st)) /\
  (Forall (fun u => image_get u <> GetFails) urls ->
   download_loop images_dir folder idx urls st
   = {| disk := disk st; requested := requested st;
        relative_paths :=
          relative_paths st
          ++ imap (fun i u => image_relative images_dir folder (idx + i) u) urls |}).
Proof.
  revert idx st. induction urls as [|w urls IH]; intros idx st Hex Hreq.
  - simpl. split; [exact Hreq|]. intros _. rewrite app_nil_r.
    destruct st; reflexivity.
  - cbn [download_loop].
    assert (forall i u, urls !! i = Some u -> image_get u <> GetFails ->
              fs_exists (disk (download_one images_dir folder idx w st))
                (image_file images_dir folder (S idx + i) u) = true) as Hex'.
    { intros i u Hi Hg. apply download_one_keeps.
      replace (S idx + i)%nat with (idx + S i)%nat by lia. apply Hex; assumption. }
    assert (Forall (fun u => image_get u = GetFails)
              (requested (download_one images_dir folder idx w st))) as Hreq'.
    { unfold download_one. cbv zeta. fold (image_file images_dir folder idx w).
      destruct (fs_exists (disk st) (image_file images_dir folder idx w)) eqn:He;
        [exact Hreq|].
      destruct (image_get w) eqn:Hg; simpl.
      - apply Forall_app. split; [exact Hreq|]. constructor; [exact Hg|constructor].
      - specialize (Hex 0%nat w eq_refl). rewrite Nat.add_0_r, He, Hg in Hex.
        specialize (Hex ltac:(discriminate)). discriminate.
      - specialize (Hex 0%nat w eq_refl). rewrite Nat.add_0_r, He, Hg in Hex.
        specialize (Hex ltac:(discriminate)). discriminate. }
    destruct (IH (S idx) _ Hex' Hreq') as [IH1 IH2].
    split; [exact IH1|]. intros Hall. inversion Hall as [|? ? Hw Hall']; subst.
    rewrite (IH2 Hall'). unfold download_one. cbv zeta.
    fold (image_file images_dir folder idx w).
    fold (image_relative images_dir folder idx w).
    assert (fs_exists (disk st) (image_file images_dir folder idx w) = true) as ->.
    { specialize (Hex 0%nat w eq_refl Hw). rewrite Nat.add_0_r in Hex. exact Hex. }
    cbn [disk requested relative_paths]. f_equal.
    rewrite <- app_assoc. f_equal. cbn [imap app]. rewrite Nat.add_0_r. f_equal.
    apply imap_ext. intros i u _. cbn. f_equal. lia.
Qed.

End FileProofs.

(** X13: a file name made by [_filename_from_url] is never empty, always
    holds a dot, and holds only word characters, dots and hyphens; so it
    holds no slash, no backslash and no white space. *)
Theorem filename_safe `{CsvDetails.Libs} (url : pystr) (index : nat) :
  CsvDetails._filename_from_url url index <> [] /\
  (46 ∈ CsvDetails._filename_from_url url index) /\
  Forall CsvDetails.safe_char (CsvDetails._filename_from_url url index) /\
  (47 ∉ CsvDetails._filename_from_url url index) /\
  (92 ∉ CsvDetails._filename_from_url url index) /\
  (32 ∉ CsvDetails._filename_from_url url index).
Proof.
  destruct (filename_facts url index) as (Hne & Hdot & Hsafe).
  repeat split; try assumption;
    intros Hin; rewrite Forall_forall in Hsafe; apply Hsafe in Hin;
    destruct Hin as [Hc|[Hc|Hc]]; vm_compute in Hc; discriminate.
Qed.

(** X14: every path [_download_images] reports is the relative form of
    a path [images_dir/folder/filename] that exists on the disk when it
    returns: the file this run wrote, or whatever was at that path before
    (for a file name [..] that is the directory above the product's
    folder). It reports and requests at most one path per image URL; it
    removes nothing from the disk; and with no image URL it returns the
    empty list without touching the disk. *)
Theorem download_reports_existing `{Unicode} `{CsvDetails.Libs}
    `{CsvDetails.FileSystem Disk}
    (images_dir : pystr) (image_urls : list pystr)
    (product_name product_url : pystr) (d : Disk) :
  CsvDetails.reported_exist images_dir
    (CsvDetails.folder_name product_name product_url)
    (CsvDetails._download_images images_dir image_urls product_name product_url d) /\
  (length (CsvDetails.relative_paths
             (CsvDetails._download_images images_dir image_urls product_name
                product_url d)) <= length image_urls)%nat /\
  (length (CsvDetails.requested
             (CsvDetails._download_images images_dir image_urls product_name
                product_url d)) <= length image_urls)%nat /\
  (forall q,
     CsvDetails.fs_exists d q = true ->
     CsvDetails.fs_exists
       (CsvDetails.disk
          (CsvDetails._download_images images_dir image_urls product_name
             product_url d)) q = true) /\
  CsvDetails._download_images images_dir [] product_name product_url d
  = {| CsvDetails.disk := d; CsvDetails.requested := [];
       CsvDetails.relative_paths := [] |}.
Proof.
  unfold CsvDetails._download_images.
  destruct image_urls as [|u urls].
  - repeat split; simpl; try lia; auto. constructor.
  - cbv zeta. split; [|split; [|split; [|split]]].
    + apply download_loop_reported. constructor.
    + apply (download_loop_count images_dir _ 1 (u :: urls)).
    + apply (download_loop_count images_dir _ 1 (u :: urls)).
    + intros q Hq. apply download_loop_keeps. simpl.
      apply CsvDetails.fs_mkdir_keeps, Hq.
    + reflexivity.
Qed.

(** X15: running [_download_images] again on the disk a first run left
    requests only the images whose first request failed before the file was
    opened. A file that was opened is never requested again, also when its
    download broke off; when no request fails that way, the second run
    requests nothing and reports every image. *)
Theorem download_rerun_skips_existing `{Unicode} `{CsvDetails.Libs}
    `{CsvDetails.FileSystem Disk}
    (images_dir : pystr) (image_urls : list pystr)
    (product_name product_url : pystr) (d : Disk) :
  Forall (fun u => CsvDetails.image_get u = CsvDetails.GetFails)
    (CsvDetails.requested
       (CsvDetails._download_images images_dir image_urls product_name product_url
          (CsvDetails.disk
             (CsvDetails._download_images images_dir image_urls product_name
                product_url d)))) /\
  (Forall (fun u => CsvDetails.image_get u <> CsvDetails.GetFails) image_urls ->
   CsvDetails.requested
     (CsvDetails._download_images images_dir image_urls product_name product_url
        (CsvDetails.disk
           (CsvDetails._download_images images_dir image_urls product_name
              product_url d))) = [] /\
   CsvDetails.relative_paths
     (CsvDetails._download_images images_dir image_urls product_name product_url
        (CsvDetails.disk
           (CsvDetails._download_images images_dir image_urls product_name
              product_url d)))
   = imap (fun i u =>
             CsvDetails.image_relative images_dir
               (CsvDetails.folder_name product_name product_url) (1 + i) u)
       image_urls).
Proof.
  unfold CsvDetails._download_images.
  destruct image_urls as [|u urls].
  - simpl. split; [constructor|]. intros _. split; reflexivity.
  - cbv zeta.
    set (folder := CsvDetails.folder_name product_name product_url).
    set (first := CsvDetails.download_loop images_dir folder 1 (u :: urls)
                    {| CsvDetails.disk :=
                         CsvDetails.fs_mkdir d (CsvDetails.path_join images_dir folder);
                       CsvDetails.requested := [];
                       CsvDetails.relative_paths := [] |}).
    destruct (download_loop_rerun images_dir folder 1 (u :: urls)
                {| CsvDetails.disk :=
                     CsvDetails.fs_mkdir (CsvDetails.disk first)
                       (CsvDetails.path_join images_dir folder);
                   CsvDetails.requested := [];
                   CsvDetails.relative_paths := [] |}) as [Hreq Hall].
    + intros i w Hi Hg. simpl. apply CsvDetails.fs_mkdir_keeps.
      apply download_loop_files; assumption.
    + constructor.
    + split; [exact Hreq|]. intros Hok. rewrite (Hall Hok). split; reflexivity.
Qed.

(** ** Product links and product details of the CSV variant *)

Section LinkProofs.
Import CsvSku CsvDetails.

Lemma fromkeys_fold (l acc : list pystr) :
  NoDup acc ->
  NoDup (fold_left (fun acc x => if decide (x ∈ acc) then acc else acc ++ [x]) l acc) /\
  forall x,
    x ∈ fold_left (fun acc x => if decide (x ∈ acc) then acc else acc ++ [x]) l acc
    <-> x ∈ acc \/ x ∈ l.
Proof.
  revert acc. induction l as [|a l IH]; intros acc Hacc; simpl.
  - split; [exact Hacc|]. intros x. split; [auto|].
    intros [Hx|Hx]; [exact Hx|inversion Hx].
  - destruct (decide (a ∈ acc)) as [Ha|Ha].
    + destruct (IH acc Hacc) as [Hnd Hmem]. split; [exact Hnd|].
      intros x. rewrite Hmem, elem_of_cons. split; [tauto|].
      intros [Hx|[->|Hx]]; auto.
    + assert (NoDup (acc ++ [a])) as Hacc'.
      { apply NoDup_app. split; [exact Hacc|]. split; [|apply NoDup_singleton].
        intros x Hx Hx'. apply list_elem_of_singleton in Hx' as ->. contradiction. }
      destruct (IH _ Hacc') as [Hnd Hmem]. split; [exact Hnd|].
      intros x. rewrite Hmem, elem_of_app, list_elem_of_singleton, elem_of_cons.
      tauto.
Qed.

Lemma fromkeys_nodup (l : list pystr) : NoDup (fromkeys l).
Proof. apply (fromkeys_fold l []). constructor. Qed.

Lemma elem_of_fromkeys (l : list pystr) (x : pystr) : x ∈ fromkeys l <-> x ∈ l.
Proof.
  unfold fromkeys. destruct (fromkeys_fold l [] (NoDup_nil_2)) as [_ Hmem].
  rewrite Hmem. split; [|auto]. intros [Hx|Hx]; [inversion Hx|exact Hx].
Qed.

Lemma truthy_hrefs_nonempty (hrefs : list (option pystr)) (x : pystr) :
  x ∈ truthy_hrefs hrefs <-> Some x ∈ hrefs /\ x <> [].
Proof.
  unfold truthy_hrefs. rewrite list_elem_of_omap. split.
  - intros ([h|] & Hin & Hx); [|discriminate].
    destruct h as [|c h]; simpl in Hx; [discriminate|].
    injection Hx as <-. split; [exact Hin|discriminate].
  - intros [Hin Hne]. exists (Some x). split; [exact Hin|].
    destruct x; [contradiction|reflexivity].
Qed.

Context `{Browser}.

Lemma get_next_page_truthy (html next_url : pystr) :
  _get_next_page html = Some next_url -> truthy next_url = true.
Proof.
  unfold _get_next_page.
  destruct (parser_hrefs html _) as [|[href|] ?]; try discriminate.
  destruct (truthy href) eqn:Ht; [|discriminate]. intros [= <-]. exact Ht.
Qed.

(** The product loop on links without repeats: each link not seen before
    is marked seen and extracted once, in page order; a link whose
    extraction raises adds no row and the links after it are still
    processed. *)
Lemma process_links_fresh (links : list pystr) (st : RunState) :
  NoDup links ->
  produtos (process_links links st)
  = produtos st
    ++ omap ok_product (filter (fun link => link ∉ seen_links st) links) /\
  seen_links (process_links links st) = list_to_set links ∪ seen_links st /\
  loaded (process_links links st) = loaded st.
Proof.
  unfold process_links. revert st.
  induction links as [|link links IH]; intros st Hnd; simpl.
  - rewrite app_nil_r. repeat split. set_solver.
  - apply NoDup_cons in Hnd as [Hlink Hnd].
    destruct (decide (link ∈ seen_links st)) as [Hs|Hs].
    + destruct (IH st Hnd) as (Hp & Hseen & Hl).
      rewrite Hp, Hseen, Hl. rewrite filter_cons_False by (intros Hc; contradiction).
      repeat split. set_solver.
    + rewrite filter_cons_True by exact Hs.
      assert (filter (fun l => l ∉ {[link]} ∪ seen_links st) links
              = filter (fun l => l ∉ seen_links st) links) as Hfilter.
      { clear IH Hnd. induction links as [|l links IHl]; [reflexivity|].
        assert (l <> link) as Hne by (intros ->; apply Hlink; left).
        assert (link ∉ links) as Hlink' by (intros Hc; apply Hlink; right; exact Hc).
        destruct (decide (l ∈ seen_links st)) as [Hl|Hl].
        - rewrite !filter_cons_False; [apply IHl, Hlink'| |]; intros Hc; apply Hc;
            [exact Hl|apply elem_of_union_r, Hl].
        - rewrite !filter_cons_True; [f_equal; apply IHl, Hlink'|exact Hl|].
          intros Hc. apply elem_of_union in Hc as [Hc|Hc]; [|contradiction].
          apply elem_of_singleton in Hc. contradiction. }
      match goal with
      | |- context [fold_left _ links ?s] =>
        set (st1 := s); destruct (IH st1 Hnd) as (Hp & Hseen & Hl)
      end.
      assert (seen_links st1 = {[link]} ∪ seen_links st /\
              loaded st1 = loaded st /\
              produtos st1
              = produtos st ++ match ok_product link with
                               | Some p => [p]
                               | None => []
                               end) as (Hs1 & Hl1 & Hp1).
      { unfold st1, ok_product. destruct (extract_product link); simpl;
          rewrite ?app_nil_r; auto. }
      rewrite Hp, Hseen, Hl, Hs1, Hl1, Hp1, Hfilter.
      change (omap ok_product (link :: ?l))
        with (match ok_product link with
              | Some p => p :: omap ok_product l
              | None => omap ok_product l
              end).
      destruct (ok_product link); simpl; rewrite <- ?app_assoc;
        repeat split; set_solver.
Qed.

Lemma process_links_rows (links : list pystr) (st : RunState) :
  rows_ok st -> rows_ok (process_links links st).
Proof.
  unfold process_links. revert st.
  induction links as [|link links IH]; intros st Hst; simpl; [exact Hst|].
  apply IH. destruct (decide (link ∈ seen_links st)) as [Hs|Hs]; [exact Hst|].
  destruct Hst as [Hlen Hurl].
  assert (size ({[link]} ∪ seen_links st) = S (size (seen_links st))) as Hsize.
  { rewrite size_union by set_solver. rewrite size_singleton. reflexivity. }
  destruct (extract_product link) as [produto|] eqn:He; split; simpl.
  - rewrite length_app, Hsize. simpl. lia.
  - intros Hpres. destruct (Hurl Hpres) as [Hnd Hin].
    rewrite map_app. simpl. rewrite (Hpres _ _ He). split.
    + apply NoDup_app. split; [exact Hnd|]. split; [|apply NoDup_singleton].
      intros x Hx Hx'. apply list_elem_of_singleton in Hx' as ->.
      apply list_elem_of_fmap in Hx as (p & Hp & Hpin).
      apply Hs. rewrite Hp. apply Hin, Hpin.
    + intros p Hp. apply elem_of_app in Hp as [Hp|Hp].
      * apply elem_of_union_r, Hin, Hp.
      * apply list_elem_of_singleton in Hp as ->.
        rewrite (Hpres _ _ He). apply elem_of_union_l, elem_of_singleton. reflexivity.
  - rewrite Hsize. lia.
  - intros Hpres. destruct (Hurl Hpres) as [Hnd Hin]. split; [exact Hnd|].
    intros p Hp. apply elem_of_union_r, Hin, Hp.
Qed.

Lemma run_loop_rows (fuel : nat) (u : pystr) (st st' : RunState) :
  rows_ok st -> run_loop fuel u st = Some st' -> rows_ok st'.
Proof.
  revert u st. induction fuel as [|fuel IH]; intros u st Hst; simpl.
  - destruct (truthy u); simpl; [discriminate|]. intros [= <-]. exact Hst.
  - destruct (truthy u); simpl; [|intros [= <-]; exact Hst].
    assert (rows_ok (load u st)) as Hload by exact Hst.
    destruct (page_content u) as [html|]; [|intros [= <-]; exact Hload].
    destruct (_parse_product_links html) as [|l ls] eqn:Hlinks;
      [intros [= <-]; exact Hload|].
    pose proof (process_links_rows (l :: ls) (load u st) Hload) as Hproc.
    destruct (_get_next_page html) as [next_url|]; [|intros [= <-]; exact Hproc].
    destruct (negb (truthy next_url) || bool_decide (next_url = u));
      [intros [= <-]; exact Hproc|].
    apply IH, Hproc.
Qed.

(** Along a chain of pages that ends, the loop loads the pages in order
    and exits. *)
Lemma run_loop_chain (u : pystr) (l : list pystr) :
  chain u l ->
  forall st, exists st',
    run_loop (length l) u st = Some st' /\ loaded st' = loaded st ++ l.
Proof.
  induction 1 as [u Hu Hstop|u v l Hu (html & Hc & Hp & Hn & Hne) _ IH]; intros st.
  - exists (match page_content u with
            | Some html =>
              match _parse_product_links html with
              | [] => load u st
              | links => process_links links (load u st)
              end
            | None => load u st
            end).
    cbn [length run_loop]. rewrite Hu. cbn [negb].
    destruct Hstop as [Hc|(html & Hc & Hcase)]; rewrite Hc; [auto|].
    destruct (_parse_product_links html) as [|a ls] eqn:Hlinks; [auto|].
    cbn beta iota zeta.
    destruct Hcase as [Hcase|[Hcase|Hcase]]; [discriminate| |]; rewrite Hcase.
    + split; [reflexivity|]. rewrite process_links_loaded. reflexivity.
    + rewrite bool_decide_eq_true_2 by reflexivity. rewrite orb_true_r.
      split; [reflexivity|]. rewrite process_links_loaded. reflexivity.
  - destruct (IH (process_links (_parse_product_links html) (load u st)))
      as (st' & Hrun & Hl).
    exists st'. split.
    + cbn [length].
      rewrite (run_loop_next (length l) u html v st Hu Hc Hp Hn
                 (get_next_page_truthy _ _ Hn) Hne).
      exact Hrun.
    + rewrite Hl, process_links_loaded. simpl. rewrite <- app_assoc. reflexivity.
Qed.

(** More fuel than the loop needs changes nothing. *)
Lemma run_loop_more_fuel (fuel extra : nat) (u : pystr) (st st' : RunState) :
  run_loop fuel u st = Some st' -> run_loop (fuel + extra) u st = Some st'.
Proof.
  revert u st. induction fuel as [|fuel IH]; intros u st.
  - cbn [run_loop]. destruct (truthy u) eqn:Hu; cbn [negb]; [discriminate|].
    intros Hst. destruct (0 + extra)%nat; cbn [run_loop]; rewrite Hu; exact Hst.
  - change (S fuel + extra)%nat with (S (fuel + extra)). cbn [run_loop].
    destruct (negb (truthy u)); [auto|].
    destruct (page_content u) as [html|]; [|auto].
    destruct (_parse_product_links html) as [|l ls]; [auto|].
    cbn beta iota zeta.
    destruct (_get_next_page html) as [next_url|]; [|auto].
    destruct (negb (truthy next_url) || bool_decide (next_url = u)); [auto|].
    apply IH.
Qed.

End LinkProofs.
(** ** The CSV variant: what a product page and a catalog run yield *)

(** X16: the record [_extract_product_details] returns carries the URL it
    was given and an empty image column; the image URLs it returns are
    distinct, never empty, and are exactly the non-empty [data-src] or
    [src] values of the gallery images; a non-empty [data-src] is taken
    whatever [src] holds. *)
Theorem product_details_images `{CsvDetails.HtmlParser Node} (html url : pystr) :
  CsvSku.url (CsvDetails._extract_product_details html url).1 = url /\
  CsvSku.imagens (CsvDetails._extract_product_details html url).1 = [] /\
  NoDup (CsvDetails._extract_product_details html url).2 /\
  (forall src,
     src ∈ (CsvDetails._extract_product_details html url).2 <->
     src <> [] /\
     exists img,
       img ∈ CsvDetails.css_select (CsvDetails.parse html)
               "figure.woocommerce-product-gallery img, div.woocommerce-product-gallery img" /\
       CsvDetails.image_src img = Some src) /\
  (forall img src,
     img ∈ CsvDetails.css_select (CsvDetails.parse html)
             "figure.woocommerce-product-gallery img, div.woocommerce-product-gallery img" ->
     CsvDetails.node_attr img "data-src" = Some src -> src <> [] ->
     src ∈ (CsvDetails._extract_product_details html url).2).
Proof.
  assert (forall src,
     src ∈ (CsvDetails._extract_product_details html url).2 <->
     src <> [] /\
     exists img,
       img ∈ CsvDetails.css_select (CsvDetails.parse html)
               "figure.woocommerce-product-gallery img, div.woocommerce-product-gallery img" /\
       CsvDetails.image_src img = Some src) as Hmem.
  { intros src. unfold CsvDetails._extract_product_details. cbv zeta.
    destruct (match CsvDetails.css_select_one _ "div.product_meta" with
              | Some _ => _
              | None => _
              end) as [categoria marca].
    cbn [snd]. rewrite elem_of_fromkeys, list_elem_of_omap. split.
    - intros (img & Himg & Hsrc).
      destruct (CsvDetails.image_src img) as [s|] eqn:Hs; [|discriminate].
      destruct s as [|c s]; [discriminate|]. injection Hsrc as <-.
      split; [discriminate|]. exists img. split; [exact Himg|exact Hs].
    - intros (Hne & img & Himg & Hs). exists img. split; [exact Himg|].
      rewrite Hs. destruct src; [contradiction|reflexivity]. }
  split; [|split; [|split; [|split]]].
  - unfold CsvDetails._extract_product_details. cbv zeta.
    destruct (match CsvDetails.css_select_one _ "div.product_meta" with
              | Some _ => _
              | None => _
              end) as [categoria marca].
    reflexivity.
  - unfold CsvDetails._extract_product_details. cbv zeta.
    destruct (match CsvDetails.css_select_one _ "div.product_meta" with
              | Some _ => _
              | None => _
              end) as [categoria marca].
    reflexivity.
  - unfold CsvDetails._extract_product_details. cbv zeta.
    destruct (match CsvDetails.css_select_one _ "div.product_meta" with
              | Some _ => _
              | None => _
              end) as [categoria marca].
    apply fromkeys_nodup.
  - exact Hmem.
  - intros img src Himg Hd Hne. apply Hmem. split; [exact Hne|].
    exists img. split; [exact Himg|].
    unfold CsvDetails.image_src. rewrite Hd.
    destruct src; [contradiction|reflexivity].
Qed.

(** X17: the links [_parse_product_links] returns are distinct and never
    empty. When the product-title anchors give a link, the result holds
    exactly their links; the fallback to every anchor of a product card is
    used only when they give none, and then keeps only links that contain
    [/produto/]. *)
Theorem product_links_distinct `{CsvSku.Browser} (html : pystr) :
  NoDup (CsvSku._parse_product_links html) /\
  (forall link, link ∈ CsvSku._parse_product_links html -> link <> []) /\
  (CsvSku.truthy_hrefs
     (CsvSku.parser_hrefs html
        "li.product a.woocommerce-LoopProduct-link, li.product a.woocommerce-loop-product__link")
   <> [] ->
   forall link,
     link ∈ CsvSku._parse_product_links html <->
     link <> [] /\
     Some link ∈ CsvSku.parser_hrefs html
        "li.product a.woocommerce-LoopProduct-link, li.product a.woocommerce-loop-product__link") /\
  (CsvSku.truthy_hrefs
     (CsvSku.parser_hrefs html
        "li.product a.woocommerce-LoopProduct-link, li.product a.woocommerce-loop-product__link")
   = [] ->
   forall link,
     link ∈ CsvSku._parse_product_links html <->
     str_contains (py "/produto/") link = true /\
     link <> [] /\
     Some link ∈ CsvSku.parser_hrefs html "li.product a").
Proof.
  unfold CsvSku._parse_product_links. cbv zeta.
  destruct (CsvSku.truthy_hrefs (CsvSku.parser_hrefs html _)) as [|l ls] eqn:Hprimary.
  - split; [apply fromkeys_nodup|]. split; [|split].
    + intros link Hin. rewrite elem_of_fromkeys, list_elem_of_filter in Hin.
      destruct Hin as [_ Hin].
      apply truthy_hrefs_nonempty in Hin as [_ Hne]. exact Hne.
    + intros Hc. contradiction.
    + intros _ link. rewrite elem_of_fromkeys, list_elem_of_filter.
      rewrite truthy_hrefs_nonempty. tauto.
  - split; [apply fromkeys_nodup|]. split; [|split].
    + intros link Hin. rewrite elem_of_fromkeys, <- Hprimary in Hin.
      apply truthy_hrefs_nonempty in Hin as [_ Hne]. exact Hne.
    + intros _ link. rewrite elem_of_fromkeys, <- Hprimary.
      rewrite truthy_hrefs_nonempty. tauto.
    + discriminate.
Qed.

(** X18: when [run] ends, every row stands for a link marked seen, and no
    more rows than seen links were collected; when the record of a product
    page carries its link as URL, as [_extract_product_details] makes it,
    no two rows have the same URL, also when catalog pages list a product
    more than once. *)
Theorem run_rows_unique `{CsvSku.Browser} (fuel : nat) (base_url : pystr)
    (st : CsvSku.RunState) :
  CsvSku.run fuel base_url = Some st ->
  (length (CsvSku.produtos st) <= size (CsvSku.seen_links st))%nat /\
  ((forall link p, CsvSku.extract_product link = Ok p -> CsvSku.url p = link) ->
   NoDup (map CsvSku.url (CsvSku.produtos st)) /\
   forall p, p ∈ CsvSku.produtos st -> CsvSku.url p ∈ CsvSku.seen_links st).
Proof.
  intros Hrun. unfold CsvSku.run in Hrun.
  apply (run_loop_rows fuel base_url _ st) in Hrun; [exact Hrun|].
  split.
  - simpl. lia.
  - intros _. split; [constructor|]. intros p Hp. inversion Hp.
Qed.

Lemma run_rows_unique_witness :
  exists st,
    @CsvSku.run shop_browser 2 (py "/p1") = Some st /\
    NoDup (map CsvSku.url (CsvSku.produtos st)).
Proof.
  destruct (@CsvSku.run shop_browser 2 (py "/p1")) as [st|] eqn:Hrun;
    [|vm_compute in Hrun; discriminate].
  exists st. split; [reflexivity|].
  apply (@run_rows_unique shop_browser 2 (py "/p1") st Hrun).
  intros link p. unfold CsvSku.extract_product, shop_browser. cbv zeta.
  destruct (decide (link = py "/b")); [discriminate|].
  intros [= <-]. reflexivity.
Defined.

(** X19: one catalog page adds, to the rows collected so far, the records
    of its links that were not seen before and whose product page could be
    read, in page order; a product page that raises adds no row and does
    not stop the links after it; every link of the page ends up seen. *)
Theorem page_rows_in_order `{CsvSku.Browser} (html : pystr)
    (st : CsvSku.RunState) :
  CsvSku.produtos (CsvSku.process_links (CsvSku._parse_product_links html) st)
  = CsvSku.produtos st
    ++ omap CsvDetails.ok_product
         (filter (fun link => link ∉ CsvSku.seen_links st)
            (CsvSku._parse_product_links html)) /\
  CsvSku.seen_links (CsvSku.process_links (CsvSku._parse_product_links html) st)
  = list_to_set (CsvSku._parse_product_links html) ∪ CsvSku.seen_links st /\
  (forall link p,
     link ∈ CsvSku._parse_product_links html ->
     link ∉ CsvSku.seen_links st ->
     CsvSku.extract_product link = Ok p ->
     p ∈ CsvSku.produtos
           (CsvSku.process_links (CsvSku._parse_product_links html) st)).
Proof.
  destruct (process_links_fresh (CsvSku._parse_product_links html) st
              (fromkeys_nodup _)) as (Hp & Hseen & _).
  split; [exact Hp|]. split; [exact Hseen|].
  intros link p Hin Hfresh He. rewrite Hp. apply elem_of_app. right.
  apply list_elem_of_omap. exists link. split.
  - apply list_elem_of_filter. split; [exact Hfresh|exact Hin].
  - unfold CsvDetails.ok_product. rewrite He. reflexivity.
Qed.

(** X20: when the next-page links from the base URL lead to a page the
    loop ends at (a page that times out, lists no product, has no
    next-page link or links to itself), [run] ends with any fuel that
    covers the pages on the way, and loads exactly these pages, in order,
    each once per occurrence. *)
Theorem run_ends_on_chain `{CsvSku.Browser} (base_url : pystr)
    (pages : list pystr) :
  CsvDetails.chain base_url pages ->
  exists st,
    (forall fuel, (length pages <= fuel)%nat ->
                  CsvSku.run fuel base_url = Some st) /\
    CsvSku.loaded st = pages.
Proof.
  intros Hchain.
  destruct (run_loop_chain base_url pages Hchain
              {| CsvSku.produtos := []; CsvSku.seen_links := ∅;
                 CsvSku.loaded := [] |}) as (st & Hrun & Hl).
  exists st. split; [|exact Hl].
  intros fuel Hfuel. unfold CsvSku.run.
  replace fuel with (length pages + (fuel - length pages))%nat by lia.
  apply run_loop_more_fuel, Hrun.
Qed.

Lemma run_ends_on_chain_witness :
  exists st,
    @CsvSku.run shop_browser 5 (py "/p1") = Some st /\
    CsvSku.loaded st = [py "/p1"; py "/p2"].
Proof.
  destruct (@run_ends_on_chain shop_browser (py "/p1") [py "/p1"; py "/p2"])
    as (st & Hrun & Hl).
  - apply (@CsvDetails.chain_next shop_browser (py "/p1") (py "/p2")).
    + reflexivity.
    + exists (py "/p1"). repeat split; vm_compute; congruence.
    + apply CsvDetails.chain_stop; [reflexivity|].
      right. exists (py "/p2"). split; [vm_compute; reflexivity|].
      right. left. vm_compute. reflexivity.
  - exists st. split; [apply Hrun; simpl; lia|exact Hl].
Defined.
